(** * libbb/xreadlink.c: reading, following and canonicalising symlinks

    A shallow embedding of the four functions of [libbb/xreadlink.c]
    ([xmalloc_readlink], [xmalloc_follow_symlinks], [xmalloc_realpath],
    [xmalloc_realpath_coreutils]) over an explicit model of the operating
    system calls they make, followed by the properties of the design
    document that concern them. *)

From Stdlib Require Import ZArith Lia Ascii String List Bool.
From stdpp Require Import base tactics option list strings.

Local Open Scope Z_scope.

(** ** C data *)

(** A [char] buffer is a list of bytes; a C string is the part of a buffer
    in front of its first NUL byte. *)
Abbreviation NUL := Ascii.zero.
Abbreviation SLASH := "/"%char.

(** The string a [char *] pointing at the start of [b] denotes. *)
Fixpoint cstr (b : list ascii) : list ascii :=
  match b with
  | [] => []
  | c :: b' => if (c =? NUL)%char then [] else c :: cstr b'
  end.

(** A heap copy of a string: its bytes and the terminator ([xstrdup]). *)
Definition xstrdup (s : list ascii) : list ascii := s ++ [NUL].

(** Literals of the examples. *)
Definition lit (s : string) : list ascii := list_ascii_of_string s.

(** [errno] values the code tests or assigns, and some it only passes on. *)
Inductive errno_t : Set :=
| E_OK        (* 0 *)
| EINVAL | ENOENT | ENOSYS | ELOOP
| EACCES | ENOTDIR | EIO | ENAMETOOLONG | ENOMEM.

#[global] Instance errno_eq_dec : EqDecision errno_t.
Proof. solve_decision. Defined.

Definition errno_eqb (a b : errno_t) : bool := bool_decide (a = b).

(** [int] is 32 bits wide.  Signed overflow is undefined in C, so [int]
    values are plain integers here and the theorems that depend on them
    carry the range as a hypothesis.  [size_t] is unsigned and wraps. *)
Definition INT_MAX : Z := 2 ^ 31 - 1.
Definition SIZE_MAX : Z := 2 ^ 64 - 1.
Definition size_wrap (z : Z) : Z := z mod (SIZE_MAX + 1).

(** ** The operating system

    What the system calls answer, as the program sees it during one call:
    the text stored in each symlink, the canonical form of each path, the
    working directory, and the byte found in memory that was allocated but
    not written yet.  A [realpath] that succeeds saves nothing of [errno]:
    [fs_realpath_errno] is what it leaves there for a path, from what
    [errno] held when it was called (the C library probes the components
    with [readlink], which leaves [EINVAL] behind on those that are no
    links). *)
Record os_state : Type := {
  fs_readlink : list ascii -> errno_t + list ascii;
  fs_realpath : list ascii -> errno_t + list ascii;
  fs_getcwd : errno_t + list ascii;
  heap_garbage : ascii;
  fs_realpath_errno : list ascii -> errno_t -> errno_t
}.

(** [xrealloc(buf, size)]: the first [size] bytes of a block are those of
    the old block, the rest is unwritten memory. *)
Definition xrealloc (os : os_state) (buf : list ascii) (size : Z) : list ascii :=
  take (Z.to_nat size) buf
    ++ replicate (Z.to_nat size - length buf)%nat (heap_garbage os).

(** [readlink(path, buf, bufsiz)]: on a symlink, places at most [bufsiz]
    bytes of the stored text at the start of [buf], appends no terminator
    and returns the number of bytes placed; otherwise returns -1 and sets
    [errno].  The result is (return value, buffer, errno). *)
Definition readlink (os : os_state) (path buf : list ascii) (bufsiz : Z)
    (e : errno_t) : Z * list ascii * errno_t :=
  match fs_readlink os path with
  | inl err => (-1, buf, err)
  | inr t =>
      let n := Z.min (Z.of_nat (length t)) bufsiz in
      (n, take (Z.to_nat n) t ++ drop (Z.to_nat n) buf, e)
  end.

(** ** xmalloc_readlink *)

Definition GROWBY : Z := 80.

(** The [do ... while (bufsize < readsize + 1)] loop, one unit of [fuel]
    per iteration; [None] when the iterations allowed are used up. *)
Fixpoint readlink_loop (fuel : nat) (os : os_state) (path buf : list ascii)
    (bufsize : Z) (e : errno_t) : option (option (list ascii) * errno_t) :=
  match fuel with
  | O => None
  | S fuel' =>
      let bufsize := bufsize + GROWBY in
      let buf := xrealloc os buf bufsize in
      let '(readsize, buf, e) := readlink os path buf bufsize e in
      if readsize =? -1 then Some (None, e)
      else if bufsize <? readsize + 1 then
        readlink_loop fuel' os path buf bufsize e
      else Some (Some (<[Z.to_nat readsize := NUL]> buf), e)
  end.

(** Iterations the loop needs on [path]: one, and one more for every full
    [GROWBY] bytes of the stored text. *)
Definition readlink_iterations (os : os_state) (path : list ascii) : nat :=
  match fs_readlink os path with
  | inl _ => 1
  | inr t => S (Z.to_nat (Z.of_nat (length t) / GROWBY))
  end.

(** [char *xmalloc_readlink(const char *path)]: the buffer returned, or
    [None] for NULL, and [errno].  The loop is run for the iterations it
    needs ([xmalloc_readlink_text] shows that allowing more changes
    nothing); the last branch is not reached. *)
Definition xmalloc_readlink (os : os_state) (path : list ascii) (e : errno_t)
    : option (list ascii) * errno_t :=
  match readlink_loop (readlink_iterations os path) os path [] 0 e with
  | Some r => r
  | None => (None, e)
  end.

(** ** Build configuration and helpers defined outside this file *)

(** [ENABLE_PLATFORM_MINGW32] and [MAXSYMLINKS] come from the build
    ([MAXSYMLINKS] is 20 where the system headers do not define it).  The
    path-syntax helpers [is_dir_sep], [is_relative_path], [is_unc_path],
    [get_last_slash] and [root_len] belong to the MinGW port and are used
    only when [ENABLE_PLATFORM_MINGW32] is set; [get_last_slash] answers
    the offset of the separator it finds.  [concat_path_file] is libbb's
    path join; its first argument may be NULL. *)
Class Platform : Type := {
  ENABLE_PLATFORM_MINGW32 : bool;
  MAXSYMLINKS : Z;
  is_dir_sep : ascii -> bool;
  is_relative_path : list ascii -> bool;
  is_unc_path : list ascii -> bool;
  get_last_slash : list ascii -> option nat;
  root_len : list ascii -> nat;
  concat_path_file : option (list ascii) -> list ascii -> list ascii
}.

(** Offset of the last byte of [s] that satisfies [f]. *)
Fixpoint rfind (f : ascii -> bool) (s : list ascii) : option nat :=
  match s with
  | [] => None
  | c :: s' =>
      match rfind f s' with
      | Some k => Some (S k)
      | None => if f c then Some O else None
      end
  end.

(** [strrchr(s, c)] for a [c] other than NUL, as an offset into [s]. *)
Definition strrchr (s : list ascii) (c : ascii) : option nat :=
  rfind (Ascii.eqb c) s.

(** ** Outcomes of code that writes into a caller's buffer

    [xmalloc_realpath_coreutils] writes into its argument, so the argument
    is a buffer and every access is checked against its extent. *)
Inductive outcome (A : Type) : Type :=
| Ret (a : A)
| OutOfBounds
| OutOfFuel.
Arguments Ret {A} a.
Arguments OutOfBounds {A}.
Arguments OutOfFuel {A}.

#[global] Instance outcome_bind : MBind outcome := fun A B k m =>
  match m with
  | Ret a => k a
  | OutOfBounds => OutOfBounds
  | OutOfFuel => OutOfFuel
  end.

Section Program.
Context {P : Platform}.

(** The separator test of the platform. *)
Definition path_sep (c : ascii) : bool :=
  if ENABLE_PLATFORM_MINGW32 then is_dir_sep c else (c =? SLASH)%char.

(** Modelled from the spec: [bb_get_last_path_component_strip] of libbb's
    get_last_path_component.c, which is not among the sources.  It locates
    the last path separator of the path and answers the position right
    after it, so that the parent-directory prefix in front is kept; a path
    without a separator has an empty prefix.  The result is the offset of
    the last component in [buf]. *)
Definition bb_get_last_path_component_strip (buf : list ascii) : nat :=
  match rfind path_sep buf with
  | Some k => S k
  | None => O
  end.

(** Modelled from the spec: [xrealloc_getcwd_or_warn(NULL)] of libbb, the
    current-working-directory accessor: the directory in a fresh string,
    or NULL with [errno] set (and a diagnostic, not modelled). *)
Definition xrealloc_getcwd_or_warn (os : os_state) (e : errno_t)
    : option (list ascii) * errno_t :=
  match fs_getcwd os with
  | inr d => (Some d, e)
  | inl err => (None, err)
  end.

(** The test [*linkpath != '/'], or [is_relative_path(linkpath)] on MinGW. *)
Definition relative_target (linkpath : list ascii) : bool :=
  if ENABLE_PLATFORM_MINGW32 then is_relative_path linkpath
  else match linkpath with
       | c :: _ => negb (c =? SLASH)%char
       | [] => true
       end.

(** ** xmalloc_follow_symlinks *)

(** The errors on which the path read so far is returned. *)
Definition not_a_link (e : errno_t) : bool :=
  errno_eqb e EINVAL || errno_eqb e ENOENT
  || (ENABLE_PLATFORM_MINGW32 && errno_eqb e ENOSYS).

(** The [while (1)] loop, entered at its top with [buf], [bufsize] and
    [looping] as they stand; one unit of [fuel] per call of
    [xmalloc_readlink].  [buf] and [linkpath] are the strings the buffers
    hold; [bufsize] is the capacity asked of [xrealloc]. *)
Fixpoint follow_loop (fuel : nat) (os : os_state) (buf : list ascii)
    (bufsize looping : Z) (e : errno_t)
    : option (option (list ascii) * errno_t) :=
  match fuel with
  | O => None
  | S fuel' =>
      match xmalloc_readlink os buf e with
      | (None, e) =>
          (* not a symlink, or doesn't exist *)
          if not_a_link e then Some (Some buf, e) else Some (None, e)
      | (Some lp, e) =>
          let linkpath := cstr lp in
          let looping := looping - 1 in
          if looping =? 0 then
            Some (None, if ENABLE_PLATFORM_MINGW32 then ELOOP else e)
          else if relative_target linkpath then
            let bufsize := bufsize + Z.of_nat (length linkpath) in
            let lpc := bb_get_last_path_component_strip buf in
            follow_loop fuel' os (take lpc buf ++ linkpath) bufsize looping e
          else
            follow_loop fuel' os linkpath
              (Z.of_nat (length linkpath) + 1) looping e
      end
  end.

(** [char *xmalloc_follow_symlinks(const char *path)]: [buf = xstrdup(path)],
    [goto jump_in] sets [bufsize], and the loop starts with
    [looping = MAXSYMLINKS + 1]. *)
Definition xmalloc_follow_symlinks (fuel : nat) (os : os_state)
    (path : list ascii) (e : errno_t)
    : option (option (list ascii) * errno_t) :=
  follow_loop fuel os path (Z.of_nat (length path) + 1) (MAXSYMLINKS + 1) e.

(** The path the loop continues with after it has read [linkpath] at
    [buf]: both branches of the [if] at lines 82-97. *)
Definition splice (buf linkpath : list ascii) : list ascii :=
  if relative_target linkpath then
    take (bb_get_last_path_component_strip buf) buf ++ linkpath
  else linkpath.

(** The path reached from [p] by [n] hops, each through the link the path
    names; [None] when one of the [n] paths is not a link. *)
Fixpoint hops (os : os_state) (n : nat) (p : list ascii)
    : option (list ascii) :=
  match n with
  | O => Some p
  | S n' =>
      match fs_readlink os p with
      | inr t => hops os n' (splice p (cstr t))
      | inl _ => None
      end
  end.

(** ** xmalloc_realpath *)

(** [char *xmalloc_realpath(const char *path)]: both variants hand back
    what [realpath] answers, NULL with [errno] set when it fails; when it
    succeeds [errno] is what [realpath] left there. *)
Definition xmalloc_realpath (os : os_state) (path : list ascii) (e : errno_t)
    : option (list ascii) * errno_t :=
  match fs_realpath os path with
  | inr r => (Some r, fs_realpath_errno os path e)
  | inl err => (None, err)
  end.

(** ** xmalloc_realpath_coreutils *)

(** [b[i]] as a read and as a write. *)
Definition rd (b : list ascii) (i : Z) : outcome ascii :=
  if (0 <=? i) && (i <? Z.of_nat (length b)) then
    match b !! Z.to_nat i with
    | Some c => Ret c
    | None => OutOfBounds
    end
  else OutOfBounds.

Definition wr (b : list ascii) (i : Z) (c : ascii) : outcome (list ascii) :=
  if (0 <=? i) && (i <? Z.of_nat (length b)) then Ret (<[Z.to_nat i := c]> b)
  else OutOfBounds.

(** The string at offset [p] of a buffer, and its [strlen]. *)
Definition str_at (b : list ascii) (p : Z) : list ascii :=
  cstr (drop (Z.to_nat p) b).

Definition strlen (b : list ascii) (p : Z) : Z :=
  Z.of_nat (length (str_at b p)).

(** [while (sep(path[0]) && sep(path[1])) ++path;] with [path] at offset
    [p]. *)
Fixpoint skip_leading (fuel : nat) (sep : ascii -> bool) (b : list ascii)
    (p : Z) : outcome Z :=
  match rd b p with
  | Ret c0 =>
      if sep c0 then
        match rd b (p + 1) with
        | Ret c1 =>
            if sep c1 then
              match fuel with
              | S fuel' => skip_leading fuel' sep b (p + 1)
              | O => OutOfFuel
              end
            else Ret p
        | OutOfBounds => OutOfBounds
        | OutOfFuel => OutOfFuel
        end
      else Ret p
  | OutOfBounds => OutOfBounds
  | OutOfFuel => OutOfFuel
  end.

(** [while (i > 0 && sep(path[i])) i--;] *)
Fixpoint trim_trailing (fuel : nat) (sep : ascii -> bool) (b : list ascii)
    (p i : Z) : outcome Z :=
  if 0 <? i then
    match rd b (p + i) with
    | Ret c =>
        if sep c then
          match fuel with
          | S fuel' => trim_trailing fuel' sep b p (i - 1)
          | O => OutOfFuel
          end
        else Ret i
    | OutOfBounds => OutOfBounds
    | OutOfFuel => OutOfFuel
    end
  else Ret i.

(** Lines 211-235, the build without [ENABLE_PLATFORM_MINGW32]: [path] is
    not a symlink and [realpath] did not find it.  [buf] is NULL on
    entry.  The result is ([buf], the caller's buffer, [errno]). *)
Definition missing_leaf_posix (os : os_state) (path : list ascii) (e : errno_t)
    : outcome (option (list ascii) * list ascii * errno_t) :=
  let sep := Ascii.eqb SLASH in
  (* ignore leading and trailing slashes *)
  p ← skip_leading (length path) sep path 0;
  let i := size_wrap (strlen path p - 1) in
  i ← trim_trailing (length path) sep path p i;
  c ← rd path (p + size_wrap (i + 1));
  path ← wr path (p + size_wrap (i + 1)) NUL;
  '(buf, path, e) ←
    match strrchr (str_at path p) SLASH with
    | None => Ret (None, path, e)
    | Some O => Ret (Some (str_at path p), path, e)
    | Some (S _ as k) =>
        let last_slash := p + Z.of_nat k in
        path ← wr path last_slash NUL;
        let '(buf, e) := xmalloc_realpath os (str_at path p) e in
        path ← wr path last_slash SLASH;
        let last_slash := last_slash + 1 in
        Ret (match buf with
             | Some r => Some (r ++ SLASH :: str_at path last_slash)
             | None => None
             end, path, e)
    end;
  path ← wr path (p + size_wrap (i + 1)) c;
  Ret (buf, path, e).

(** Lines 183-209, the MinGW build of the same step. *)
Definition missing_leaf_mingw (os : os_state) (path : list ascii) (e : errno_t)
    : outcome (option (list ascii) * list ascii * errno_t) :=
  (* ignore leading and trailing slashes *)
  (* but keep leading slashes of UNC path *)
  p ← (if is_unc_path (str_at path 0) then Ret 0
        else skip_leading (length path) is_dir_sep path 0);
  let i := size_wrap (strlen path p - 1) in
  i ← trim_trailing (length path) is_dir_sep path p i;
  c ← rd path (p + size_wrap (i + 1));
  path ← wr path (p + size_wrap (i + 1)) NUL;
  '(buf, path, e) ←
    match get_last_slash (str_at path p) with
    | None => Ret (None, path, e)
    | Some k =>
        if (k =? root_len (str_at path p))%nat then
          Ret (Some (str_at path p), path, e)
        else
          let last_slash := p + Z.of_nat k in
          c2 ← rd path last_slash;
          path ← wr path last_slash NUL;
          let '(buf, e) := xmalloc_realpath os (str_at path p) e in
          path ← wr path last_slash c2;
          let last_slash := last_slash + 1 in
          Ret (match buf with
               | Some r => Some (r ++ c2 :: str_at path last_slash)
               | None => None
               end, path, e)
    end;
  path ← wr path (p + size_wrap (i + 1)) c;
  Ret (buf, path, e).

Definition missing_leaf (os : os_state) (path : list ascii) (e : errno_t)
    : outcome (option (list ascii) * list ascii * errno_t) :=
  if ENABLE_PLATFORM_MINGW32 then missing_leaf_mingw os path e
  else missing_leaf_posix os path e.

(** [char *xmalloc_realpath_coreutils(char *path)]: the result is (the
    string returned or NULL, the caller's buffer as the call leaves it,
    [errno]).  One unit of [fuel] per activation: the function calls itself
    on the target of a dangling link. *)
Fixpoint xmalloc_realpath_coreutils (fuel : nat) (os : os_state)
    (path : list ascii) (e : errno_t)
    : outcome (option (list ascii) * list ascii * errno_t) :=
  match fuel with
  | O => OutOfFuel
  | S fuel' =>
      let e := E_OK in
      match xmalloc_realpath os (cstr path) e with
      | (Some buf, e) => Ret (Some buf, path, e)
      | (None, e) =>
          if errno_eqb e ENOENT then
            match xmalloc_readlink os (cstr path) e with
            | (Some target, e) =>
                let '(target, e) :=
                  if relative_target (cstr target) then
                    let '(cwd, e) := xrealloc_getcwd_or_warn os e in
                    (xstrdup (concat_path_file cwd (cstr target)), e)
                  else (target, e) in
                '(buf, _, e) ← xmalloc_realpath_coreutils fuel' os target e;
                Ret (buf, path, e)
            | (None, e) => missing_leaf os path e
            end
          else Ret (None, path, e)
      end
  end.

(** The call returns [r] when some number of activations is enough. *)
Definition realpath_coreutils_returns (os : os_state) (path : list ascii)
    (e : errno_t) (r : option (list ascii) * list ascii * errno_t) : Prop :=
  exists fuel, xmalloc_realpath_coreutils fuel os path e = Ret r.

End Program.

(** ** Path text, for the statements *)

(** A path without its leading duplicate slashes: what is left when
    [while (path[0] == '/' && path[1] == '/') ++path;] is done. *)
Fixpoint collapse_leading (s : list ascii) : list ascii :=
  match s with
  | c0 :: ((c1 :: _) as s') =>
      if (SLASH =? c0)%char && (SLASH =? c1)%char then collapse_leading s'
      else s
  | _ => s
  end.

(** A buffer that holds a C string has a terminator. *)
Definition valid_cstring (b : list ascii) : Prop := NUL ∈ b.

(** ** Builds and file systems of the examples *)

Fixpoint skip_slashes (s : list ascii) : list ascii :=
  match s with
  | "/"%char :: s' => skip_slashes s'
  | _ => s
  end.

(** A path join for the examples: one separator between the two parts. *)
Definition join_path (path : option (list ascii)) (filename : list ascii)
    : list ascii :=
  let path := default [] path in
  path ++ match last path with
          | Some "/"%char => []
          | _ => [SLASH]
          end ++ skip_slashes filename.

(** A build without [ENABLE_PLATFORM_MINGW32]; the MinGW helpers are not
    used there. *)
Definition posix_build : Platform := {|
  ENABLE_PLATFORM_MINGW32 := false;
  MAXSYMLINKS := 20;
  is_dir_sep c := (c =? SLASH)%char;
  is_relative_path s := match s with "/"%char :: _ => false | _ => true end;
  is_unc_path _ := false;
  get_last_slash s := strrchr s SLASH;
  root_len _ := O;
  concat_path_file := join_path |}.

(** A MinGW build: both slashes separate, a drive prefix is a root. *)
Definition win_sep (c : ascii) : bool :=
  (c =? "/")%char || (c =? "\")%char.

Definition has_drive (s : list ascii) : bool :=
  match s with
  | _ :: ":"%char :: _ => true
  | _ => false
  end.

Definition mingw_build : Platform := {|
  ENABLE_PLATFORM_MINGW32 := true;
  MAXSYMLINKS := 20;
  is_dir_sep := win_sep;
  is_relative_path s :=
    match s with
    | c :: _ => negb (win_sep c) && negb (has_drive s)
    | [] => true
    end;
  is_unc_path s :=
    match s with
    | a :: b :: c :: _ => win_sep a && win_sep b && negb (win_sep c)
    | _ => false
    end;
  get_last_slash s := rfind win_sep s;
  root_len s := if has_drive s then 2%nat else O;
  concat_path_file := join_path |}.

Fixpoint assoc (k : list ascii) (l : list (string * string))
    : option (list ascii) :=
  match l with
  | [] => None
  | (a, b) :: l' => if bool_decide (lit a = k) then Some (lit b) else assoc k l'
  end.

(** A file system given by its symlinks (name, stored text) and by the
    canonical form of the paths that resolve; [readlink] fails with
    [EINVAL] on what resolves without being a link, [ENOENT] elsewhere,
    and a [realpath] that succeeds leaves [EINVAL] in [errno]. *)
Definition os_of (links real : list (string * string)) (cwd : string)
    : os_state := {|
  fs_readlink p :=
    match assoc p links with
    | Some t => inr t
    | None =>
        match assoc p real with
        | Some _ => inl EINVAL
        | None => inl ENOENT
        end
    end;
  fs_realpath p :=
    match assoc p real with
    | Some r => inr r
    | None => inl ENOENT
    end;
  fs_getcwd := inr (lit cwd);
  heap_garbage := "?"%char;
  fs_realpath_errno _ _ := EINVAL |}.

Definition example_os : os_state :=
  os_of [("/tmp/a", "/tmp/b"); ("/tmp/link", "sub/file"); ("loop", "loop");
         ("/a/b/dangling", "x")]
        [("/tmp/b", "/tmp/b"); ("/a/b", "/r/b"); ("/home/u", "/home/u");
         (".", "/home/u"); ("/", "/")]
        "/home/u".

(** A file system in which every path is a symlink with the text [t], and
    one on which [readlink] is not supported. *)
Definition os_all_links (t : list ascii) : os_state := {|
  fs_readlink _ := inr t;
  fs_realpath _ := inl ELOOP;
  fs_getcwd := inr [SLASH];
  heap_garbage := "?"%char;
  fs_realpath_errno _ e := e |}.

Definition os_no_symlinks : os_state := {|
  fs_readlink _ := inl ENOSYS;
  fs_realpath p := inr p;
  fs_getcwd := inr [SLASH];
  heap_garbage := "?"%char;
  fs_realpath_errno _ _ := EINVAL |}.

(** ** xmalloc_readlink_or_warn *)

(** Modelled from the spec: [bb_error_msg] of libbb, the error reporter.
    The formatted message is added to the diagnostics issued so far. *)
Definition bb_error_msg (diag : list (list ascii)) (msg : list ascii)
    : list (list ascii) :=
  diag ++ [msg].

(** [char *xmalloc_readlink_or_warn(const char *path)], with [strerror]
    of the C library as [strerror]: the buffer returned, or [None] for
    NULL, and the diagnostics.  What [bb_error_msg] leaves in [errno] is
    not decided in this file, so [errno] is no part of the result. *)
Definition xmalloc_readlink_or_warn (strerror : errno_t -> list ascii)
    (os : os_state) (path : list ascii) (e : errno_t)
    (diag : list (list ascii)) : option (list ascii) * list (list ascii) :=
  match xmalloc_readlink os path e with
  | (Some buf, _) => (Some buf, diag)
  | (None, err) =>
      (* EINVAL => "file: Invalid argument" => puzzled user *)
      let errmsg :=
        if negb (errno_eqb err EINVAL) then strerror err
        else lit "not a symlink" in
      (None, bb_error_msg diag (path ++ lit ": cannot read link: " ++ errmsg))
  end.

Section LoopState.
Context {P : Platform}.

(** [buf] and [bufsize] of [xmalloc_follow_symlinks] at the top of the
    loop after [n] rounds that read a link, starting from [buf] and
    [bufsize]: lines 87-90 for a relative target, lines 93-96 for an
    absolute one. *)
Fixpoint follow_state (os : os_state) (n : nat) (buf : list ascii)
    (bufsize : Z) : option (list ascii * Z) :=
  match n with
  | O => Some (buf, bufsize)
  | S n' =>
      match fs_readlink os buf with
      | inr t =>
          let linkpath := cstr t in
          if relative_target linkpath then
            let bufsize := bufsize + Z.of_nat (length linkpath) in
            let lpc := bb_get_last_path_component_strip buf in
            follow_state os n' (take lpc buf ++ linkpath) bufsize
          else
            follow_state os n' linkpath (Z.of_nat (length linkpath) + 1)
      | inl _ => None
      end
  end.

End LoopState.

(** A path without its leading duplicate separators, for a separator
    test [sep]: what is left when
    [while (is_dir_sep(path[0]) && is_dir_sep(path[1])) ++path;] is done. *)
Fixpoint collapse_leading_by (sep : ascii -> bool) (s : list ascii)
    : list ascii :=
  match s with
  | c0 :: ((c1 :: _) as s') =>
      if sep c0 && sep c1 then collapse_leading_by sep s' else s
  | _ => s
  end.

(** A file system for the examples in which the link [/w/d/l] stores the
    text [d/l] and the working directory is [/w]: the link is dangling. *)
Definition os_self_named : os_state :=
  os_of [("/w/d/l", "d/l"); ("d/l", "d/l")]
        [("/w", "/w"); ("/w/d", "/w/d"); ("d", "/w/d"); ("/", "/")]
        "/w".

(** [strerror] for the examples. *)
Definition example_strerror (e : errno_t) : list ascii :=
  match e with
  | ENOENT => lit "No such file or directory"
  | EINVAL => lit "Invalid argument"
  | EACCES => lit "Permission denied"
  | _ => lit "Error"
  end.

(** A file system with drive-letter paths for the examples. *)
Definition os_windows : os_state :=
  os_of [] [("C:\dir", "C:/dir"); ("C:/", "C:/")] "C:/".

(** * Properties *)

(** ** C strings *)

Lemma cstr_app_nul (s rest : list ascii) :
  NUL ∉ s -> cstr (s ++ NUL :: rest) = s.
Proof.
  induction s as [|c s IH]; intros Hs; simpl; [done|].
  apply not_elem_of_cons in Hs as [Hc Hs].
  destruct (Ascii.eqb_spec c NUL) as [->|_]; [done|].
  by rewrite IH.
Qed.

Lemma cstr_no_nul (s : list ascii) : NUL ∉ cstr s.
Proof.
  induction s as [|c s IH]; simpl; [apply not_elem_of_nil|].
  destruct (Ascii.eqb_spec c NUL) as [->|Hc]; [apply not_elem_of_nil|].
  apply not_elem_of_cons. split; [congruence|done].
Qed.

Lemma cstr_id (s : list ascii) : NUL ∉ s -> cstr s = s.
Proof.
  induction s as [|c s IH]; intros Hs; simpl; [done|].
  apply not_elem_of_cons in Hs as [Hc Hs].
  destruct (Ascii.eqb_spec c NUL) as [->|_]; [done|]. by rewrite IH.
Qed.

(** The string of a buffer that holds [t] and then a terminator. *)
Lemma cstr_app_cstr (t rest : list ascii) :
  cstr (t ++ NUL :: rest) = cstr t.
Proof.
  induction t as [|c t IH]; simpl; [done|].
  destruct (Ascii.eqb_spec c NUL); [done|]. by rewrite IH.
Qed.

(** ** xmalloc_readlink *)

Lemma length_xrealloc os buf size :
  0 <= size -> length (xrealloc os buf size) = Z.to_nat size.
Proof.
  intros. unfold xrealloc. rewrite length_app, length_take, length_replicate. lia.
Qed.

Lemma readlink_loop_error fuel os path buf bufsize e err :
  fs_readlink os path = inl err ->
  readlink_loop (S fuel) os path buf bufsize e = Some (None, err).
Proof. intros H. simpl. unfold readlink. by rewrite H. Qed.

(** One more round when the text does not fit with room for the terminator. *)
Lemma readlink_loop_retry os path buf bufsize e t :
  fs_readlink os path = inr t ->
  0 <= bufsize ->
  bufsize + GROWBY <= Z.of_nat (length t) ->
  exists buf', length buf' = Z.to_nat (bufsize + GROWBY) /\
    forall fuel,
      readlink_loop (S fuel) os path buf bufsize e
      = readlink_loop fuel os path buf' (bufsize + GROWBY) e.
Proof.
  intros Ht Hb Hle. eexists. split; [|intros fuel].
  2:{ simpl. unfold readlink. rewrite Ht.
      rewrite Z.min_r by lia.
      assert ((bufsize + GROWBY =? -1) = false) as -> by (unfold GROWBY; lia).
      assert ((bufsize + GROWBY <? bufsize + GROWBY + 1) = true) as -> by lia.
      reflexivity. }
  rewrite length_app, length_take, length_drop, length_xrealloc
    by (unfold GROWBY; lia).
  lia.
Qed.

(** The round in which it fits: the terminator goes right behind the text. *)
Lemma readlink_loop_stop os path buf bufsize e t :
  fs_readlink os path = inr t ->
  0 <= bufsize ->
  Z.of_nat (length t) < bufsize + GROWBY ->
  exists rest,
    length rest = Z.to_nat (bufsize + GROWBY - Z.of_nat (length t) - 1) /\
    forall fuel,
      readlink_loop (S fuel) os path buf bufsize e
      = Some (Some (t ++ NUL :: rest), e).
Proof.
  intros Ht Hb Hlt.
  set (b := xrealloc os buf (bufsize + GROWBY)).
  assert (Hlen : length b = Z.to_nat (bufsize + GROWBY))
    by (apply length_xrealloc; unfold GROWBY; lia).
  destruct (drop (length t) b) as [|c rest] eqn:Hd.
  { apply (f_equal length) in Hd. rewrite length_drop in Hd. simpl in Hd. lia. }
  exists rest. split.
  - apply (f_equal length) in Hd. rewrite length_drop in Hd. simpl in Hd. lia.
  - intros fuel. simpl. unfold readlink. rewrite Ht.
    rewrite Z.min_l by lia.
    assert ((Z.of_nat (length t) =? -1) = false) as -> by lia.
    assert ((bufsize + GROWBY <? Z.of_nat (length t) + 1) = false) as -> by lia.
    rewrite Nat2Z.id, firstn_all. fold b. rewrite Hd.
    do 3 f_equal.
    rewrite insert_app_r_alt by lia. by rewrite Nat.sub_diag.
Qed.

(** The loop from capacity [bufsize] on a text that needs [k] retries: it
    has no result within [k] rounds and one and the same result with any
    more. *)
Lemma readlink_loop_run os path e t (k : nat) : forall buf bufsize,
  fs_readlink os path = inr t ->
  0 <= bufsize ->
  bufsize + GROWBY * Z.of_nat k <= Z.of_nat (length t)
    < bufsize + GROWBY * (Z.of_nat k + 1) ->
  exists rest,
    length rest = Z.to_nat (bufsize + GROWBY * (Z.of_nat k + 1)
                            - Z.of_nat (length t) - 1) /\
    forall fuel,
      readlink_loop fuel os path buf bufsize e
      = if decide (fuel <= k)%nat then None
        else Some (Some (t ++ NUL :: rest), e).
Proof.
  induction k as [|k IH]; intros buf bufsize Ht Hb Hr.
  - assert (Hlt : Z.of_nat (length t) < bufsize + GROWBY) by lia.
    destruct (readlink_loop_stop os path buf bufsize e t Ht Hb Hlt)
      as (rest & Hl & Hs).
    exists rest. split; [rewrite Hl; f_equal; lia|].
    intros [|fuel]; [done|]. rewrite Hs. case_decide; [lia|done].
  - assert (Hle : bufsize + GROWBY <= Z.of_nat (length t))
      by (unfold GROWBY in *; lia).
    destruct (readlink_loop_retry os path buf bufsize e t Ht Hb Hle)
      as (buf' & Hl & Hs).
    assert (Hb' : 0 <= bufsize + GROWBY) by (unfold GROWBY; lia).
    assert (Hr' : bufsize + GROWBY + GROWBY * Z.of_nat k <= Z.of_nat (length t)
                  < bufsize + GROWBY + GROWBY * (Z.of_nat k + 1))
      by (unfold GROWBY in *; lia).
    destruct (IH buf' (bufsize + GROWBY) Ht Hb' Hr') as (rest & Hrl & Hn).
    exists rest. split; [rewrite Hrl; f_equal; lia|].
    intros [|fuel]; [done|]. rewrite Hs, Hn.
    repeat case_decide; done || lia.
Qed.

Lemma readlink_iterations_range (t : list ascii) :
  0 + GROWBY * Z.of_nat (Z.to_nat (Z.of_nat (length t) / GROWBY))
    <= Z.of_nat (length t)
    < 0 + GROWBY * (Z.of_nat (Z.to_nat (Z.of_nat (length t) / GROWBY)) + 1).
Proof.
  unfold GROWBY.
  pose proof (Z.div_mod (Z.of_nat (length t)) 80 ltac:(lia)) as Hdm.
  pose proof (Z.mod_pos_bound (Z.of_nat (length t)) 80 ltac:(lia)).
  assert (0 <= Z.of_nat (length t) / 80) by (apply Z.div_pos; lia).
  rewrite Z2Nat.id by done. lia.
Qed.

(** What [xmalloc_readlink] answers, from what the system answers. *)
Lemma xmalloc_readlink_error os path e err :
  fs_readlink os path = inl err -> xmalloc_readlink os path e = (None, err).
Proof.
  intros H. unfold xmalloc_readlink, readlink_iterations. rewrite H.
  by rewrite (readlink_loop_error _ _ _ _ _ _ err).
Qed.

Lemma xmalloc_readlink_text os path e t :
  fs_readlink os path = inr t ->
  exists rest,
    length rest = Z.to_nat (GROWBY * (Z.of_nat (length t) / GROWBY + 1)
                            - Z.of_nat (length t) - 1)
    /\ xmalloc_readlink os path e = (Some (t ++ NUL :: rest), e)
    /\ forall fuel,
         readlink_loop fuel os path [] 0 e
         = if decide (fuel <= Z.to_nat (Z.of_nat (length t) / GROWBY))%nat
           then None else Some (Some (t ++ NUL :: rest), e).
Proof.
  intros Ht. unfold xmalloc_readlink, readlink_iterations. rewrite Ht.
  pose proof (readlink_iterations_range t) as Hr.
  destruct (readlink_loop_run os path e t _ [] 0 Ht ltac:(lia) Hr)
    as (rest & Hl & Hn).
  exists rest. split; [|split; [|done]].
  - rewrite Hl. f_equal.
    assert (0 <= Z.of_nat (length t) / GROWBY)
      by (apply Z.div_pos; unfold GROWBY; lia).
    rewrite Z2Nat.id by done. lia.
  - rewrite Hn. case_decide; [lia|done].
Qed.

Lemma xmalloc_readlink_cases os path e :
  (exists err, fs_readlink os path = inl err
               /\ xmalloc_readlink os path e = (None, err))
  \/ (exists t lp, fs_readlink os path = inr t
                   /\ xmalloc_readlink os path e = (Some lp, e)
                   /\ cstr lp = cstr t).
Proof.
  destruct (fs_readlink os path) as [err|t] eqn:H.
  - left. exists err. split; [done|]. by apply xmalloc_readlink_error.
  - right. destruct (xmalloc_readlink_text os path e t H) as (rest & _ & Hx & _).
    exists t, (t ++ NUL :: rest). split; [done|]. split; [done|].
    apply cstr_app_cstr.
Qed.

(** C3.  [xmalloc_readlink] returns the complete text of a symlink of any
    length an [int] can count, a multiple of the 80-byte increment
    included: the buffer holds the whole text with a NUL written at
    exactly the reported length; its capacity is the first multiple of
    [GROWBY] above the length; the loop takes one round per full [GROWBY]
    bytes and one more, and no result sooner; a round whose reported
    length reaches the capacity retries with the capacity raised by
    [GROWBY], and a round whose reported length is below it stops. *)
Theorem xmalloc_readlink_complete os path e t :
  fs_readlink os path = inr t ->
  Z.of_nat (length t) + GROWBY <= INT_MAX ->
  let n := Z.of_nat (length t) in
  (exists buf,
     xmalloc_readlink os path e = (Some buf, e)
     /\ take (length t) buf = t
     /\ buf !! length t = Some NUL
     /\ Z.of_nat (length buf) = GROWBY * (n / GROWBY + 1)
     /\ n < Z.of_nat (length buf) <= INT_MAX
     /\ (NUL ∉ t -> cstr buf = t)
     /\ forall fuel,
          ((fuel <= Z.to_nat (n / GROWBY))%nat ->
             readlink_loop fuel os path [] 0 e = None)
          /\ ((Z.to_nat (n / GROWBY) < fuel)%nat ->
             readlink_loop fuel os path [] 0 e = Some (Some buf, e)))
  /\ (forall fuel buf0 bufsize,
        0 <= bufsize ->
        let cap := bufsize + GROWBY in
        let '(readsize, buf1, e1) :=
          readlink os path (xrealloc os buf0 cap) cap e in
        readsize = Z.min n cap
        /\ (cap <= readsize ->
              readlink_loop (S fuel) os path buf0 bufsize e
              = readlink_loop fuel os path buf1 cap e1)
        /\ (readsize < cap ->
              readlink_loop (S fuel) os path buf0 bufsize e
              = Some (Some (<[Z.to_nat readsize := NUL]> buf1), e1))).
Proof.
  intros Ht Hrange n. split.
  - destruct (xmalloc_readlink_text os path e t Ht) as (rest & Hl & Hx & Hn).
    assert (Hq : 0 <= n / GROWBY) by (apply Z.div_pos; unfold GROWBY; lia).
    pose proof (readlink_iterations_range t) as Hr.
    rewrite Z2Nat.id in Hr by done. fold n in Hr, Hl.
    assert (Hlen : Z.of_nat (length (t ++ NUL :: rest))
                   = GROWBY * (n / GROWBY + 1)).
    { rewrite length_app. simpl. rewrite Nat2Z.inj_add, Nat2Z.inj_succ, Hl.
      lia. }
    exists (t ++ NUL :: rest). split; [done|]. split.
    { by rewrite take_app_length. }
    split.
    { rewrite lookup_app_r by lia. by rewrite Nat.sub_diag. }
    split; [done|]. split.
    { rewrite Hlen. unfold GROWBY in *. lia. }
    split.
    { intros Hnul. by apply cstr_app_nul. }
    intros fuel. rewrite Hn. fold n.
    split; intros Hf; case_decide; done || lia.
  - intros fuel buf0 bufsize Hb cap. unfold readlink. rewrite Ht.
    fold n. split; [done|]. simpl. unfold readlink. rewrite Ht. fold n cap.
    split; intros Hc.
    + assert ((Z.min n cap =? -1) = false) as -> by (unfold cap, GROWBY in *; lia).
      assert ((cap <? Z.min n cap + 1) = true) as -> by lia.
      done.
    + assert ((Z.min n cap =? -1) = false) as -> by (unfold cap, GROWBY in *; lia).
      assert ((cap <? Z.min n cap + 1) = false) as -> by lia.
      done.
Qed.

(** ** Searching from the right *)

Lemma rfind_Some f s k :
  rfind f s = Some k ->
  exists c, s !! k = Some c /\ f c = true
            /\ Forall (fun x => f x = false) (drop (S k) s).
Proof.
  revert k. induction s as [|x s IH]; intros k; simpl; [done|].
  destruct (rfind f s) as [j|] eqn:Hj.
  - intros [= <-]. destruct (IH j eq_refl) as (c & Hc & Hf & Hall).
    exists c. simpl. done.
  - destruct (f x) eqn:Hx; [|done]. intros [= <-].
    exists x. split; [done|]. split; [done|]. simpl. rewrite drop_0.
    clear IH. induction s as [|y s IH]; [constructor|].
    simpl in Hj. destruct (rfind f s); [done|].
    destruct (f y) eqn:Hy; [done|]. constructor; [done|]. by apply IH.
Qed.

Lemma rfind_None f s :
  rfind f s = None -> Forall (fun x => f x = false) s.
Proof.
  induction s as [|x s IH]; simpl; [constructor|].
  destruct (rfind f s); [done|]. destruct (f x) eqn:Hx; [done|].
  intros _. constructor; [done|]. by apply IH.
Qed.

Lemma rfind_app_last f s c tl :
  f c = true -> Forall (fun x => f x = false) tl ->
  rfind f (s ++ c :: tl) = Some (length s).
Proof.
  intros Hc Htl.
  assert (Hn : rfind f tl = None).
  { induction Htl as [|y tl Hy _ IH]; simpl; [done|]. by rewrite IH, Hy. }
  induction s as [|x s IH]; simpl.
  - by rewrite Hn, Hc.
  - by rewrite IH.
Qed.

Section FollowSymlinks.
Context {P : Platform}.

(** ** xmalloc_follow_symlinks *)

(** [bufsize] is only passed to [xrealloc]: the result does not depend on
    it, and the capacity asked for holds the spliced path. *)
Lemma follow_loop_bufsize fuel os : forall buf bufsize bufsize' looping e,
  follow_loop fuel os buf bufsize looping e
  = follow_loop fuel os buf bufsize' looping e.
Proof.
  induction fuel as [|fuel IH]; intros buf bs bs' looping e; simpl; [done|].
  destruct (xmalloc_readlink os buf e) as [[lp|] e1]; [|done].
  destruct (looping - 1 =? 0); [done|].
  destruct (relative_target (cstr lp)); [apply IH|done].
Qed.

Lemma bb_get_last_path_component_strip_le buf :
  (bb_get_last_path_component_strip buf <= length buf)%nat.
Proof.
  unfold bb_get_last_path_component_strip.
  destruct (rfind path_sep buf) as [k|] eqn:Hk; [|lia].
  destruct (rfind_Some _ _ _ Hk) as (c & Hc & _).
  apply lookup_lt_Some in Hc. lia.
Qed.

Lemma splice_fits buf linkpath bufsize :
  Z.of_nat (length buf) + 1 <= bufsize ->
  Z.of_nat (length (take (bb_get_last_path_component_strip buf) buf
                    ++ linkpath)) + 1
  <= bufsize + Z.of_nat (length linkpath).
Proof.
  intros H. rewrite length_app, length_take.
  pose proof (bb_get_last_path_component_strip_le buf). lia.
Qed.

(** One round of the loop, by what [readlink] answers at [buf]. *)
Lemma follow_loop_error fuel os buf bufsize looping e err :
  fs_readlink os buf = inl err ->
  follow_loop (S fuel) os buf bufsize looping e
  = Some (if not_a_link err then Some buf else None, err).
Proof.
  intros H. simpl. rewrite (xmalloc_readlink_error os buf e err H).
  by destruct (not_a_link err).
Qed.

Lemma follow_loop_link fuel os buf bufsize bufsize' looping e t :
  fs_readlink os buf = inr t ->
  follow_loop (S fuel) os buf bufsize looping e
  = if looping - 1 =? 0 then
      Some (None, if ENABLE_PLATFORM_MINGW32 then ELOOP else e)
    else follow_loop fuel os (splice buf (cstr t)) bufsize' (looping - 1) e.
Proof.
  intros H. simpl.
  destruct (xmalloc_readlink_text os buf e t H) as (rest & _ & -> & _).
  rewrite cstr_app_cstr. destruct (looping - 1 =? 0); [done|].
  unfold splice. destruct (relative_target (cstr t)); apply follow_loop_bufsize.
Qed.

(** The loop ends within [looping] rounds. *)
Lemma follow_loop_terminates os : forall fuel buf bufsize looping e,
  0 < looping <= Z.of_nat fuel ->
  exists r, follow_loop fuel os buf bufsize looping e = Some r.
Proof.
  induction fuel as [|fuel IH]; intros buf bs looping e Hl; [lia|].
  destruct (fs_readlink os buf) as [err|t] eqn:Hr.
  - rewrite (follow_loop_error _ _ _ _ _ _ err Hr). eauto.
  - rewrite (follow_loop_link _ _ _ _ bs _ _ t Hr).
    destruct (Z.eqb_spec (looping - 1) 0); [eauto|].
    apply IH. lia.
Qed.

(** Hops compose. *)
Lemma hops_add os n m p :
  hops os (n + m) p = hops os n p ≫= hops os m.
Proof.
  revert p. induction n as [|n IH]; intros p; simpl; [done|].
  destruct (fs_readlink os p); [done|]. apply IH.
Qed.

Lemma hops_prefix os n m p q :
  (n <= m)%nat -> hops os m p = Some q -> exists r, hops os n p = Some r.
Proof.
  intros Hnm H. replace m with (n + (m - n))%nat in H by lia.
  rewrite hops_add in H. destruct (hops os n p); [eauto|done].
Qed.

(** On a cycle every number of hops can be made. *)
Lemma hops_cycle os n p :
  (0 < n)%nat -> hops os n p = Some p -> forall k, exists r, hops os k p = Some r.
Proof.
  intros Hn Hc k. induction (lt_wf k) as [k _ IH].
  destruct (decide (k <= n)%nat) as [Hk|Hk].
  - by apply (hops_prefix os k n p p).
  - destruct (IH (k - n)%nat ltac:(lia)) as [r Hr].
    exists r. replace k with (n + (k - n))%nat by lia.
    rewrite hops_add, Hc. exact Hr.
Qed.

(** [n] hops take [n] rounds and [n] units of the budget. *)
Lemma follow_loop_hops os : forall n fuel buf bufsize looping e q,
  hops os n buf = Some q ->
  Z.of_nat n < looping ->
  follow_loop (n + fuel) os buf bufsize looping e
  = follow_loop fuel os q bufsize (looping - Z.of_nat n) e.
Proof.
  induction n as [|n IH]; intros fuel buf bs looping e q Hh Hl.
  - simpl in Hh. injection Hh as <-. simpl. f_equal. lia.
  - simpl in Hh. destruct (fs_readlink os buf) as [|t] eqn:Hr; [done|].
    change (S n + fuel)%nat with (S (n + fuel)).
    rewrite (follow_loop_link _ _ _ _ bs _ _ t Hr).
    destruct (Z.eqb_spec (looping - 1) 0); [lia|].
    rewrite (IH fuel _ bs (looping - 1) e q Hh) by lia.
    f_equal. lia.
Qed.

(** A path that ends the chain within the budget ends the loop. *)
Lemma follow_chain_ends os path e fuel n q err :
  hops os n path = Some q ->
  fs_readlink os q = inl err ->
  Z.of_nat n <= MAXSYMLINKS ->
  (n < fuel)%nat ->
  xmalloc_follow_symlinks fuel os path e
  = Some (if not_a_link err then Some q else None, err).
Proof.
  intros Hh Hr Hn Hf. unfold xmalloc_follow_symlinks.
  replace fuel with (n + S (fuel - n - 1))%nat by lia.
  rewrite (follow_loop_hops os n _ _ _ _ e q Hh) by lia.
  by apply follow_loop_error.
Qed.

(** [MAXSYMLINKS + 1] links in a row use the budget up. *)
Lemma follow_budget_spent os path e fuel q :
  0 <= MAXSYMLINKS ->
  hops os (Z.to_nat (MAXSYMLINKS + 1)) path = Some q ->
  (Z.to_nat (MAXSYMLINKS + 1) <= fuel)%nat ->
  xmalloc_follow_symlinks fuel os path e
  = Some (None, if ENABLE_PLATFORM_MINGW32 then ELOOP else e).
Proof.
  intros HM Hh Hf. unfold xmalloc_follow_symlinks.
  replace (Z.to_nat (MAXSYMLINKS + 1)) with (Z.to_nat MAXSYMLINKS + 1)%nat
    in Hh by lia.
  rewrite hops_add in Hh.
  destruct (hops os (Z.to_nat MAXSYMLINKS) path) as [m|] eqn:Hm; [|done].
  simpl in Hh. destruct (fs_readlink os m) as [|t] eqn:Hr; [done|].
  replace fuel with (Z.to_nat MAXSYMLINKS + S (fuel - Z.to_nat MAXSYMLINKS - 1))%nat
    by lia.
  rewrite (follow_loop_hops os _ _ _ _ _ e m Hm) by lia.
  rewrite (follow_loop_link _ _ _ _ 0 _ _ t Hr).
  destruct (Z.eqb_spec (MAXSYMLINKS + 1 - Z.of_nat (Z.to_nat MAXSYMLINKS) - 1) 0);
    [done|lia].
Qed.

(** Either [n] links follow each other from [p], or the chain ends
    sooner at a path that is not a link. *)
Lemma hops_or_end os n p :
  (exists q, hops os n p = Some q)
  \/ (exists N q err, (N < n)%nat /\ hops os N p = Some q
                      /\ fs_readlink os q = inl err).
Proof.
  induction n as [|n IH]; [left; simpl; eauto|].
  destruct IH as [[q Hq]|(N & q & err & HN & Hq & Hr)].
  - destruct (fs_readlink os q) as [err|t] eqn:Hr.
    + right. exists n, q, err. split; [lia|done].
    + left. exists (splice q (cstr t)).
      replace (S n) with (n + 1)%nat by lia.
      rewrite hops_add, Hq. simpl. by rewrite Hr.
  - right. exists N, q, err. split; [lia|done].
Qed.

(** C2.  The hop budget of [xmalloc_follow_symlinks] starts at
    [MAXSYMLINKS + 1] and drops by one with every link read; the round in
    which it reaches zero fails.  So the call ends within
    [MAXSYMLINKS + 1] reads of a link, whatever the file system holds;
    it fails (NULL) when [MAXSYMLINKS + 1] links follow each other from
    the starting path, as they do on a cycle; a chain of [N <= MAXSYMLINKS]
    hops that ends at a path which is not a link, or does not exist, gives
    that path; and a failure has no other cause than the spent budget or
    an error of [readlink] that is not one of those. *)
Theorem follow_symlinks_hop_budget os path e fuel :
  0 <= MAXSYMLINKS ->
  (Z.to_nat (MAXSYMLINKS + 1) <= fuel)%nat ->
  let too_many := Some (None, if ENABLE_PLATFORM_MINGW32 then ELOOP else e) in
  (exists r, xmalloc_follow_symlinks fuel os path e = Some r)
  /\ xmalloc_follow_symlinks fuel os path e
     = follow_loop fuel os path (Z.of_nat (length path) + 1)
         (MAXSYMLINKS + 1) e
  /\ (forall n buf bufsize looping t,
        fs_readlink os buf = inr t ->
        follow_loop (S n) os buf bufsize looping e
        = if looping - 1 =? 0 then too_many
          else follow_loop n os (splice buf (cstr t)) bufsize (looping - 1) e)
  /\ (forall q,
        hops os (Z.to_nat (MAXSYMLINKS + 1)) path = Some q ->
        xmalloc_follow_symlinks fuel os path e = too_many)
  /\ (forall n,
        (0 < n)%nat -> hops os n path = Some path ->
        xmalloc_follow_symlinks fuel os path e = too_many)
  /\ (forall N q err,
        Z.of_nat N <= MAXSYMLINKS ->
        hops os N path = Some q ->
        fs_readlink os q = inl err ->
        err = EINVAL \/ err = ENOENT ->
        xmalloc_follow_symlinks fuel os path e = Some (Some q, err))
  /\ (forall e',
        xmalloc_follow_symlinks fuel os path e = Some (None, e') ->
        (exists q, hops os (Z.to_nat (MAXSYMLINKS + 1)) path = Some q)
        \/ (exists N q,
              Z.of_nat N <= MAXSYMLINKS /\ hops os N path = Some q
              /\ fs_readlink os q = inl e' /\ not_a_link e' = false)).
Proof.
  intros HM Hf too_many.
  split; [apply follow_loop_terminates; lia|].
  split; [done|].
  split; [intros n buf bs looping t Hr; by apply follow_loop_link|].
  split; [intros q Hq; by apply (follow_budget_spent os path e fuel q)|].
  split.
  { intros n Hn Hc.
    destruct (hops_cycle os n path Hn Hc (Z.to_nat (MAXSYMLINKS + 1))) as [q Hq].
    by apply (follow_budget_spent os path e fuel q). }
  split.
  { intros N q err HN Hq Hr Herr.
    rewrite (follow_chain_ends os path e fuel N q err Hq Hr HN) by lia.
    by destruct Herr as [-> | ->]. }
  intros e' Hres.
  destruct (hops_or_end os (Z.to_nat (MAXSYMLINKS + 1)) path)
    as [Hq|(N & q & err & HN & Hq & Hr)]; [by left|].
  right. exists N, q.
  rewrite (follow_chain_ends os path e fuel N q err Hq Hr) in Hres by lia.
  destruct (not_a_link err) eqn:Hnl; [done|].
  injection Hres as <-. split; [lia|done].
Qed.

(** C4.  A hop of [xmalloc_follow_symlinks], at any place of the chain
    within the budget: from the path [buf] that names a link, the next
    path is the stored target alone when the target is absolute, so that
    nothing of the path read so far remains; when it is relative, it is
    [buf] up to and including its last separator followed by the target
    as it is stored, and the target alone when [buf] has no separator.
    That next path is what the call returns when it is not a link, and
    the path the loop goes on with, its budget one less, when it is. *)
Theorem follow_symlinks_splice os path e fuel n buf t :
  hops os n path = Some buf ->
  fs_readlink os buf = inr t ->
  Z.of_nat n < MAXSYMLINKS ->
  (S n < fuel)%nat ->
  let linkpath := cstr t in
  hops os (S n) path = Some (splice buf linkpath)
  /\ (relative_target linkpath = false ->
       splice buf linkpath = linkpath
       /\ forall err,
            fs_readlink os linkpath = inl err ->
            err = EINVAL \/ err = ENOENT ->
            xmalloc_follow_symlinks fuel os path e = Some (Some linkpath, err))
  /\ (relative_target linkpath = true ->
       exists parent last,
         buf = parent ++ last
         /\ Forall (fun c => path_sep c = false) last
         /\ (parent = [] \/ exists pre c, parent = pre ++ [c] /\ path_sep c = true)
         /\ splice buf linkpath = parent ++ linkpath
         /\ forall err,
              fs_readlink os (parent ++ linkpath) = inl err ->
              err = EINVAL \/ err = ENOENT ->
              xmalloc_follow_symlinks fuel os path e
              = Some (Some (parent ++ linkpath), err))
  /\ (forall fuel' bufsize bufsize' looping e',
        looping - 1 <> 0 ->
        follow_loop (S fuel') os buf bufsize looping e'
        = follow_loop fuel' os (splice buf linkpath) bufsize' (looping - 1) e')
  /\ (ENABLE_PLATFORM_MINGW32 = false ->
       (relative_target linkpath = false <-> exists r, linkpath = SLASH :: r)
       /\ forall c, path_sep c = true <-> c = SLASH).
Proof.
  intros Hb Hr Hn Hf linkpath.
  assert (Hnext : hops os (S n) path = Some (splice buf linkpath)).
  { replace (S n) with (n + 1)%nat by lia.
    rewrite hops_add, Hb. simpl. by rewrite Hr. }
  assert (Hend : forall err,
            fs_readlink os (splice buf linkpath) = inl err ->
            err = EINVAL \/ err = ENOENT ->
            xmalloc_follow_symlinks fuel os path e
            = Some (Some (splice buf linkpath), err)).
  { intros err Herr Hkind.
    rewrite (follow_chain_ends os path e fuel (S n) _ err Hnext Herr)
      by lia.
    by destruct Hkind as [-> | ->]. }
  split; [exact Hnext|]. split.
  { intros Ha.
    assert (Hs : splice buf linkpath = linkpath)
      by (unfold splice; by rewrite Ha).
    split; [exact Hs|]. rewrite <- Hs. exact Hend. }
  split.
  { intros Hrel.
    assert (Hsp : exists parent last,
              buf = parent ++ last
              /\ Forall (fun c => path_sep c = false) last
              /\ (parent = []
                  \/ exists pre c, parent = pre ++ [c] /\ path_sep c = true)
              /\ splice buf linkpath = parent ++ linkpath).
    { unfold splice, bb_get_last_path_component_strip.
      rewrite Hrel. destruct (rfind path_sep buf) as [k|] eqn:Hk.
      - destruct (rfind_Some _ _ _ Hk) as (c & Hc & Hsep & Hall).
        exists (take (S k) buf), (drop (S k) buf).
        split; [by rewrite take_drop|]. split; [done|]. split; [|done].
        right. exists (take k buf), c. split; [|done].
        by apply take_S_r.
      - exists [], buf. split; [done|]. split; [by apply rfind_None|].
        split; [by left|]. by rewrite take_0. }
    destruct Hsp as (parent & last & H1 & H2 & H3 & H4).
    exists parent, last. split; [done|]. split; [done|]. split; [done|].
    split; [done|]. rewrite <- H4. exact Hend. }
  split.
  { intros fuel' bs bs' looping e' Hl.
    rewrite (follow_loop_link _ _ _ _ bs' _ _ t Hr).
    by destruct (Z.eqb_spec (looping - 1) 0). }
  intros HM. unfold relative_target, path_sep. rewrite HM. split.
  - destruct linkpath as [|c r]; [split; [done|intros [? ?]; done]|].
    destruct (Ascii.eqb_spec c SLASH) as [->|Hc]; simpl.
    + split; [eauto|done].
    + split; [done|]. intros [r' [= ? ?]]. done.
  - intros c. apply Ascii.eqb_eq.
Qed.

(** C5.  When [readlink] fails at the path the loop stands at with
    [EINVAL] or [ENOENT], and with [ENOSYS] on a MinGW build,
    [xmalloc_follow_symlinks] returns that path as it is; every other
    error makes the call fail.  [ENOSYS] takes the branch of a real
    not-a-symlink answer, and the call returns what it returns there
    ([errno], which is no part of a successful result, stays as
    [readlink] left it). *)
Theorem follow_symlinks_read_error os path e fuel n q err :
  hops os n path = Some q ->
  fs_readlink os q = inl err ->
  Z.of_nat n <= MAXSYMLINKS ->
  (n < fuel)%nat ->
  (err = EINVAL \/ err = ENOENT ->
     xmalloc_follow_symlinks fuel os path e = Some (Some q, err))
  /\ (err = ENOSYS -> ENABLE_PLATFORM_MINGW32 = true ->
       xmalloc_follow_symlinks fuel os path e = Some (Some q, ENOSYS))
  /\ (err = ENOSYS -> ENABLE_PLATFORM_MINGW32 = false ->
       xmalloc_follow_symlinks fuel os path e = Some (None, ENOSYS))
  /\ (err <> EINVAL -> err <> ENOENT -> err <> ENOSYS ->
       xmalloc_follow_symlinks fuel os path e = Some (None, err))
  /\ (forall bufsize looping,
       follow_loop (S fuel) os q bufsize looping e
       = Some (if not_a_link err then Some q else None, err))
  /\ (err = ENOSYS -> ENABLE_PLATFORM_MINGW32 = true ->
       forall os' path' n',
         hops os' n' path' = Some q ->
         fs_readlink os' q = inl EINVAL ->
         Z.of_nat n' <= MAXSYMLINKS ->
         (n' < fuel)%nat ->
         fst <$> xmalloc_follow_symlinks fuel os path e
         = fst <$> xmalloc_follow_symlinks fuel os' path' e).
Proof.
  intros Hq Hr Hn Hf.
  pose proof (follow_chain_ends os path e fuel n q err Hq Hr Hn Hf) as H.
  unfold not_a_link, errno_eqb in H.
  split; [intros [-> | ->]; exact H|].
  split; [intros -> HM; rewrite HM in H; exact H|].
  split; [intros -> HM; rewrite HM in H; exact H|].
  split.
  { intros H1 H2 H3. rewrite H.
    rewrite !bool_decide_eq_false_2 by done. by rewrite andb_false_r. }
  split; [intros bs looping; by apply follow_loop_error|].
  intros -> HM os' path' n' Hq' Hr' Hn' Hf'.
  rewrite H, (follow_chain_ends os' path' e fuel n' q EINVAL Hq' Hr' Hn' Hf').
  unfold not_a_link, errno_eqb. by rewrite HM.
Qed.

(** C10.  When the hop budget is spent, [xmalloc_follow_symlinks] returns
    NULL and assigns [errno] only on a MinGW build.  On the other builds
    [errno] is what it was when the call began.  The outcome is then the
    one of a call that fails on an error of [readlink] exactly when
    [errno] at entry was that error: with such a stale value nothing
    tells the spent budget, and with any other value at entry, 0 for
    one, [errno] does. *)
Theorem follow_symlinks_exhausted_errno os path fuel q :
  0 <= MAXSYMLINKS ->
  hops os (Z.to_nat (MAXSYMLINKS + 1)) path = Some q ->
  (Z.to_nat (MAXSYMLINKS + 1) <= fuel)%nat ->
  (forall e,
     xmalloc_follow_symlinks fuel os path e
     = Some (None, if ENABLE_PLATFORM_MINGW32 then ELOOP else e))
  /\ (ENABLE_PLATFORM_MINGW32 = false ->
       (forall e, xmalloc_follow_symlinks fuel os path e = Some (None, e))
       /\ (forall os' path' e' err,
             fs_readlink os' path' = inl err ->
             not_a_link err = false ->
             xmalloc_follow_symlinks fuel os path err
             = xmalloc_follow_symlinks fuel os' path' e')
       /\ (forall e os' path' e' N q' err,
             hops os' N path' = Some q' ->
             Z.of_nat N <= MAXSYMLINKS ->
             fs_readlink os' q' = inl err ->
             (xmalloc_follow_symlinks fuel os' path' e'
              = xmalloc_follow_symlinks fuel os path e
              <-> not_a_link err = false /\ err = e))).
Proof.
  intros HM Hq Hf.
  assert (H : forall e, xmalloc_follow_symlinks fuel os path e
                = Some (None, if ENABLE_PLATFORM_MINGW32 then ELOOP else e))
    by (intros e; by apply (follow_budget_spent os path e fuel q)).
  split; [exact H|]. intros Hmingw. rewrite Hmingw in H.
  split; [exact H|]. split.
  - intros os' path' e' err Hr Hnl. rewrite H.
    rewrite (follow_chain_ends os' path' e' fuel 0 path' err eq_refl Hr)
      by lia.
    by rewrite Hnl.
  - intros e os' path' e' N q' err Hq' HN Hr. rewrite H.
    rewrite (follow_chain_ends os' path' e' fuel N q' err Hq' Hr HN) by lia.
    destruct (not_a_link err); split.
    + done.
    + by intros [? _].
    + by intros [= ->].
    + by intros [_ ->].
Qed.

End FollowSymlinks.

(** ** Buffers *)

Lemma bind_Ret {A B : Type} (m : outcome A) (k : A -> outcome B) (r : B) :
  m ≫= k = Ret r -> exists a, m = Ret a /\ k a = Ret r.
Proof. destruct m; unfold mbind, outcome_bind; [eauto|done|done]. Qed.

Lemma rd_Ret b i c :
  rd b i = Ret c -> 0 <= i < Z.of_nat (length b) /\ b !! Z.to_nat i = Some c.
Proof.
  unfold rd. destruct (0 <=? i) eqn:H0; [|done].
  destruct (i <? Z.of_nat (length b)) eqn:H1; [|done]. simpl.
  destruct (b !! Z.to_nat i); [|done]. intros [= ->]. split; [lia|done].
Qed.

Lemma wr_Ret b i c b' :
  wr b i c = Ret b' ->
  0 <= i < Z.of_nat (length b) /\ b' = <[Z.to_nat i := c]> b.
Proof.
  unfold wr. destruct (0 <=? i) eqn:H0; [|done].
  destruct (i <? Z.of_nat (length b)) eqn:H1; [|done]. simpl.
  intros [= <-]. split; [lia|done].
Qed.

Lemma rd_at l1 c l2 : rd (l1 ++ c :: l2) (Z.of_nat (length l1)) = Ret c.
Proof.
  unfold rd.
  assert (Hlt : Z.of_nat (length l1) < Z.of_nat (length (l1 ++ c :: l2)))
    by (rewrite length_app, length_cons; lia).
  destruct (Z.leb_spec 0 (Z.of_nat (length l1))); [|lia].
  destruct (Z.ltb_spec (Z.of_nat (length l1))
              (Z.of_nat (length (l1 ++ c :: l2)))); [|lia].
  cbn [andb]. by rewrite Nat2Z.id, list_lookup_middle.
Qed.

Lemma wr_at l1 c l2 x :
  wr (l1 ++ c :: l2) (Z.of_nat (length l1)) x = Ret (l1 ++ x :: l2).
Proof.
  unfold wr.
  assert (Hlt : Z.of_nat (length l1) < Z.of_nat (length (l1 ++ c :: l2)))
    by (rewrite length_app, length_cons; lia).
  destruct (Z.leb_spec 0 (Z.of_nat (length l1))); [|lia].
  destruct (Z.ltb_spec (Z.of_nat (length l1))
              (Z.of_nat (length (l1 ++ c :: l2)))); [|lia].
  cbn [andb]. rewrite Nat2Z.id. f_equal.
  rewrite insert_app_r_alt by lia. by rewrite Nat.sub_diag.
Qed.

Lemma rd_beyond b i : Z.of_nat (length b) <= i -> rd b i = OutOfBounds.
Proof.
  intros H. unfold rd.
  assert ((i <? Z.of_nat (length b)) = false) as -> by lia.
  by rewrite andb_false_r.
Qed.

Lemma str_at_app l1 l2 : str_at (l1 ++ l2) (Z.of_nat (length l1)) = cstr l2.
Proof. unfold str_at. by rewrite Nat2Z.id, drop_app_length. Qed.

Lemma cstr_lookup b k c : cstr b !! k = Some c -> b !! k = Some c.
Proof.
  revert k. induction b as [|x b IH]; intros k; simpl; [done|].
  destruct (Ascii.eqb_spec x NUL); [done|].
  destruct k as [|k]; simpl; [done|]. apply IH.
Qed.

Lemma cstr_split b : valid_cstring b -> exists rest, b = cstr b ++ NUL :: rest.
Proof.
  unfold valid_cstring. induction b as [|x b IH]; intros H.
  - by apply elem_of_nil in H.
  - simpl. destruct (Ascii.eqb_spec x NUL) as [->|Hx]; [by exists b|].
    apply elem_of_cons in H as [H|H]; [done|].
    destruct (IH H) as [rest Hr]. exists rest. simpl. by rewrite <- Hr.
Qed.

Section RealpathCoreutils.
Context {P : Platform}.

(** ** The caller's buffer *)

(** Writing back what stood at a place undoes a write there. *)
Lemma wr_restore b i c x b1 b2 :
  rd b i = Ret c -> wr b i x = Ret b1 -> wr b1 i c = Ret b2 -> b2 = b.
Proof.
  intros Hr Hw1 Hw2.
  apply rd_Ret in Hr as [_ Hr]. apply wr_Ret in Hw1 as [_ ->].
  apply wr_Ret in Hw2 as [_ ->].
  rewrite list_insert_insert_eq. by apply list_insert_id.
Qed.

Lemma str_at_rd b p k c :
  0 <= p -> str_at b p !! k = Some c -> rd b (p + Z.of_nat k) = Ret c.
Proof.
  intros Hp H. unfold str_at in H. apply cstr_lookup in H.
  rewrite lookup_drop in H. unfold rd.
  pose proof (lookup_lt_Some _ _ _ H).
  assert ((0 <=? p + Z.of_nat k) = true) as -> by lia.
  assert ((p + Z.of_nat k <? Z.of_nat (length b)) = true) as -> by lia.
  simpl. replace (Z.to_nat (p + Z.of_nat k)) with (Z.to_nat p + k)%nat by lia.
  by rewrite H.
Qed.

Lemma skip_leading_nonneg fuel sep b : forall p p',
  0 <= p -> skip_leading fuel sep b p = Ret p' -> 0 <= p'.
Proof.
  induction fuel as [|fuel IH]; intros p p' Hp; simpl;
    destruct (rd b p) as [c0| |]; try done;
    destruct (sep c0); try (intros [= <-]; done);
    destruct (rd b (p + 1)) as [c1| |]; try done;
    destruct (sep c1); try (intros [= <-]; done); try done.
  apply IH. lia.
Qed.

Lemma missing_leaf_posix_frame os path e buf path' e' :
  missing_leaf_posix os path e = Ret (buf, path', e') -> path' = path.
Proof.
  unfold missing_leaf_posix. intros H.
  apply bind_Ret in H as (p & Hp & H).
  apply skip_leading_nonneg in Hp; [|done].
  apply bind_Ret in H as (i & _ & H).
  apply bind_Ret in H as (c & Hc & H).
  apply bind_Ret in H as (path1 & Hw1 & H).
  apply bind_Ret in H as ([[buf1 path3] e3] & Hmid & H).
  apply bind_Ret in H as (path4 & Hw4 & H).
  injection H as <- <- <-.
  assert (path3 = path1) as ->; [|by apply (wr_restore path (p + size_wrap (i + 1)) c NUL path1)].
  destruct (strrchr (str_at path1 p) SLASH) as [[|k]|] eqn:Hk;
    try (by injection Hmid as _ <- _).
  apply bind_Ret in Hmid as (path2 & Hw2 & Hmid).
  destruct (xmalloc_realpath os (str_at path2 p) e) as [r e2].
  apply bind_Ret in Hmid as (path3' & Hw3 & Hmid).
  injection Hmid as _ <- _.
  apply (wr_restore path1 (p + Z.of_nat (S k)) SLASH NUL path2); [|done|done].
  destruct (rfind_Some _ _ _ Hk) as (x & Hx & Hsep & _).
  apply Ascii.eqb_eq in Hsep as <-.
  by apply str_at_rd.
Qed.

Lemma missing_leaf_mingw_frame os path e buf path' e' :
  missing_leaf_mingw os path e = Ret (buf, path', e') -> path' = path.
Proof.
  unfold missing_leaf_mingw. intros H.
  apply bind_Ret in H as (p & _ & H).
  apply bind_Ret in H as (i & _ & H).
  apply bind_Ret in H as (c & Hc & H).
  apply bind_Ret in H as (path1 & Hw1 & H).
  apply bind_Ret in H as ([[buf1 path3] e3] & Hmid & H).
  apply bind_Ret in H as (path4 & Hw4 & H).
  injection H as <- <- <-.
  assert (path3 = path1) as ->; [|by apply (wr_restore path (p + size_wrap (i + 1)) c NUL path1)].
  destruct (get_last_slash (str_at path1 p)) as [k|];
    [|by injection Hmid as _ <- _].
  destruct (k =? root_len (str_at path1 p))%nat;
    [by injection Hmid as _ <- _|].
  apply bind_Ret in Hmid as (c2 & Hc2 & Hmid).
  apply bind_Ret in Hmid as (path2 & Hw2 & Hmid).
  destruct (xmalloc_realpath os (str_at path2 p) e) as [r e2].
  apply bind_Ret in Hmid as (path3' & Hw3 & Hmid).
  injection Hmid as _ <- _.
  by apply (wr_restore path1 (p + Z.of_nat k) c2 NUL path2).
Qed.

(** ** xmalloc_realpath_coreutils *)

(** The first activation, by what [realpath] and [readlink] answer. *)
Lemma coreutils_realpath_found fuel os path e r :
  fs_realpath os (cstr path) = inr r ->
  xmalloc_realpath_coreutils (S fuel) os path e
  = Ret (Some r, path, fs_realpath_errno os (cstr path) E_OK).
Proof. intros H. simpl. unfold xmalloc_realpath. by rewrite H. Qed.

Lemma coreutils_realpath_other_error fuel os path e err :
  fs_realpath os (cstr path) = inl err -> err <> ENOENT ->
  xmalloc_realpath_coreutils (S fuel) os path e = Ret (None, path, err).
Proof.
  intros H Hne. simpl. unfold xmalloc_realpath. rewrite H.
  unfold errno_eqb. by rewrite bool_decide_eq_false_2.
Qed.

Lemma coreutils_enters_missing_leaf fuel os path e err :
  fs_realpath os (cstr path) = inl ENOENT ->
  fs_readlink os (cstr path) = inl err ->
  xmalloc_realpath_coreutils (S fuel) os path e = missing_leaf os path err.
Proof.
  intros H Hr. simpl. unfold xmalloc_realpath. rewrite H.
  unfold errno_eqb. rewrite bool_decide_eq_true_2 by done.
  by rewrite (xmalloc_readlink_error os (cstr path) ENOENT err Hr).
Qed.

(** C6.  Where [realpath] resolves the path, [xmalloc_realpath_coreutils]
    returns the string [xmalloc_realpath] returns and leaves the argument
    alone; [errno] is what that [realpath], called with [errno] 0, left
    there.  The step for a missing last component is taken only after
    [realpath] failed with [ENOENT]: with any other error the call
    returns NULL and that error at once. *)
Theorem realpath_coreutils_existing fuel os path e r :
  fs_realpath os (cstr path) = inr r ->
  xmalloc_realpath_coreutils (S fuel) os path e
  = Ret (Some r, path, fs_realpath_errno os (cstr path) E_OK)
  /\ xmalloc_realpath os (cstr path) E_OK
     = (Some r, fs_realpath_errno os (cstr path) E_OK)
  /\ fst (xmalloc_realpath os (cstr path) e) = Some r
  /\ forall os' err,
       fs_realpath os' (cstr path) = inl err -> err <> ENOENT ->
       xmalloc_realpath_coreutils (S fuel) os' path e = Ret (None, path, err).
Proof.
  intros H. split; [by apply coreutils_realpath_found|]. split; [|split].
  - unfold xmalloc_realpath. by rewrite H.
  - unfold xmalloc_realpath. by rewrite H.
  - intros os' err. apply coreutils_realpath_other_error.
Qed.

(** The activation on a dangling link: the buffer the function calls
    itself on, and what it does with the answer. *)
Lemma coreutils_dangling_step os path e t :
  fs_realpath os (cstr path) = inl ENOENT ->
  fs_readlink os (cstr path) = inr t ->
  exists target e1,
    cstr target = (if relative_target (cstr t)
                   then cstr (concat_path_file
                                (fst (xrealloc_getcwd_or_warn os ENOENT))
                                (cstr t))
                   else cstr t)
    /\ valid_cstring target
    /\ Z.of_nat (length target)
       = (if relative_target (cstr t)
          then Z.of_nat (length (concat_path_file
                                   (fst (xrealloc_getcwd_or_warn os ENOENT))
                                   (cstr t))) + 1
          else GROWBY * (Z.of_nat (length t) / GROWBY + 1))
    /\ (forall fuel,
          xmalloc_realpath_coreutils (S fuel) os path e
          = '(buf, _, e') ← xmalloc_realpath_coreutils fuel os target e1;
            Ret (buf, path, e')).
Proof.
  intros Hrp Hrl.
  destruct (xmalloc_readlink_text os (cstr path) ENOENT t Hrl)
    as (rest & Hlen & Hx & _).
  set (linktext := cstr t).
  set (cwd := fst (xrealloc_getcwd_or_warn os ENOENT)).
  set (target := if relative_target linktext
                 then xstrdup (concat_path_file cwd linktext)
                 else t ++ NUL :: rest).
  set (e1 := if relative_target linktext
             then snd (xrealloc_getcwd_or_warn os ENOENT) else ENOENT).
  exists target, e1. split; [|split; [|split]].
  - unfold target. destruct (relative_target linktext).
    + unfold xstrdup. apply cstr_app_cstr.
    + apply cstr_app_cstr.
  - unfold target, valid_cstring, xstrdup.
    destruct (relative_target linktext); apply elem_of_app; right;
      apply elem_of_cons; by left.
  - unfold target, xstrdup. destruct (relative_target linktext).
    + rewrite length_app, length_cons, length_nil. lia.
    + rewrite length_app, length_cons, Hlen.
      pose proof (readlink_iterations_range t) as Hr.
      assert (0 <= Z.of_nat (length t) / GROWBY)
        by (apply Z.div_pos; unfold GROWBY; lia).
      rewrite Z2Nat.id in Hr by done. unfold GROWBY in *. lia.
  - intros fuel. simpl. unfold xmalloc_realpath. rewrite Hrp.
    unfold errno_eqb. rewrite bool_decide_eq_true_2 by done.
    rewrite Hx, cstr_app_cstr. fold linktext. unfold target, e1, cwd.
    destruct (relative_target linktext); [|done].
    by destruct (xrealloc_getcwd_or_warn os ENOENT).
Qed.

(** C8.  Whenever [xmalloc_realpath_coreutils] returns, the caller's
    buffer holds what it held before the call, byte for byte: the
    terminator written behind the last byte that is not a separator is
    replaced by the byte saved from there, and the separator cleared in
    front of the last component is written back, on both builds; the
    paths that return early do not write. *)
Theorem realpath_coreutils_frame fuel os path e buf path' e' :
  xmalloc_realpath_coreutils fuel os path e = Ret (buf, path', e') ->
  path' = path
  /\ (forall err b p1 e1,
        missing_leaf_posix os path err = Ret (b, p1, e1) -> p1 = path)
  /\ (forall err b p1 e1,
        missing_leaf_mingw os path err = Ret (b, p1, e1) -> p1 = path).
Proof.
  intros H. split; [|split].
  - destruct fuel as [|fuel]; [done|]. simpl in H.
    destruct (xmalloc_realpath os (cstr path) E_OK) as [[r|] e0];
      [by injection H as _ <- _|].
    destruct (errno_eqb e0 ENOENT); [|by injection H as _ <- _].
    destruct (xmalloc_readlink os (cstr path) e0) as [[target|] e1].
    + destruct (if relative_target (cstr target)
                then let '(cwd, e2) := xrealloc_getcwd_or_warn os e1 in
                     (xstrdup (concat_path_file cwd (cstr target)), e2)
                else (target, e1)) as [target' e2].
      apply bind_Ret in H as ([[b t'] e3] & _ & H).
      by injection H as _ <- _.
    + unfold missing_leaf in H. destruct ENABLE_PLATFORM_MINGW32.
      * by apply missing_leaf_mingw_frame in H.
      * by apply missing_leaf_posix_frame in H.
  - intros err b p1 e1. apply missing_leaf_posix_frame.
  - intros err b p1 e1. apply missing_leaf_mingw_frame.
Qed.

End RealpathCoreutils.

(** ** The two scans of the missing-leaf step *)

Lemma skip_leading_eq fuel sep b p :
  skip_leading fuel sep b p
  = match rd b p with
    | Ret c0 =>
        if sep c0 then
          match rd b (p + 1) with
          | Ret c1 =>
              if sep c1 then
                match fuel with
                | S fuel' => skip_leading fuel' sep b (p + 1)
                | O => OutOfFuel
                end
              else Ret p
          | OutOfBounds => OutOfBounds
          | OutOfFuel => OutOfFuel
          end
        else Ret p
    | OutOfBounds => OutOfBounds
    | OutOfFuel => OutOfFuel
    end.
Proof. by destruct fuel. Qed.

Lemma trim_trailing_eq fuel sep b p i :
  trim_trailing fuel sep b p i
  = if 0 <? i then
      match rd b (p + i) with
      | Ret c =>
          if sep c then
            match fuel with
            | S fuel' => trim_trailing fuel' sep b p (i - 1)
            | O => OutOfFuel
            end
          else Ret i
      | OutOfBounds => OutOfBounds
      | OutOfFuel => OutOfFuel
      end
    else Ret i.
Proof. by destruct fuel. Qed.

(** The two scans are given as many rounds as the buffer has bytes; they
    never need more, so the step itself never runs out of fuel. *)
Lemma rd_fuel b i : rd b i <> OutOfFuel.
Proof. unfold rd. destruct (_ && _); [|done]. by destruct (b !! _). Qed.

Lemma wr_fuel b i c : wr b i c <> OutOfFuel.
Proof. unfold wr. by destruct (_ && _). Qed.

Lemma skip_leading_fuel sep b : forall fuel p,
  0 <= p -> Z.of_nat (length b) <= p + Z.of_nat fuel + 1 ->
  skip_leading fuel sep b p <> OutOfFuel.
Proof.
  induction fuel as [|fuel IH]; intros p Hp Hlen; rewrite skip_leading_eq.
  - destruct (rd b p) as [c0| |] eqn:H0; [|done|by apply rd_fuel in H0].
    destruct (sep c0); [|done].
    destruct (rd b (p + 1)) as [c1| |] eqn:H1;
      [|done|by apply rd_fuel in H1].
    apply rd_Ret in H1 as [H1 _]. lia.
  - destruct (rd b p) as [c0| |] eqn:H0; [|done|by apply rd_fuel in H0].
    destruct (sep c0); [|done].
    destruct (rd b (p + 1)) as [c1| |] eqn:H1;
      [|done|by apply rd_fuel in H1].
    destruct (sep c1); [|done]. apply IH; lia.
Qed.

Lemma trim_trailing_fuel sep b p : forall fuel i,
  0 <= p -> (p + i < Z.of_nat (length b) -> i <= Z.of_nat fuel) ->
  trim_trailing fuel sep b p i <> OutOfFuel.
Proof.
  induction fuel as [|fuel IH]; intros i Hp Hi; rewrite trim_trailing_eq.
  - destruct (Z.ltb_spec 0 i); [|done].
    destruct (rd b (p + i)) as [c| |] eqn:Hc; [|done|by apply rd_fuel in Hc].
    apply rd_Ret in Hc as [Hc _]. lia.
  - destruct (Z.ltb_spec 0 i); [|done].
    destruct (rd b (p + i)) as [c| |] eqn:Hc; [|done|by apply rd_fuel in Hc].
    apply rd_Ret in Hc as [Hc _].
    destruct (sep c); [|done]. apply IH; lia.
Qed.

Lemma bind_OutOfFuel {A B : Type} (m : outcome A) (k : A -> outcome B) :
  m ≫= k = OutOfFuel ->
  m = OutOfFuel \/ exists a, m = Ret a /\ k a = OutOfFuel.
Proof.
  destruct m; unfold mbind, outcome_bind; intros H;
    [right; eauto|done|by left].
Qed.

Ltac step_fuel H :=
  apply bind_OutOfFuel in H as [H|(? & ? & H)];
  [first [by apply rd_fuel in H | by apply wr_fuel in H | idtac]|].

Lemma collapse_leading_cons (c0 c1 : ascii) (s : list ascii) :
  collapse_leading (c0 :: c1 :: s)
  = if (SLASH =? c0)%char && (SLASH =? c1)%char
    then collapse_leading (c1 :: s) else c0 :: c1 :: s.
Proof. reflexivity. Qed.

Lemma collapse_leading_nonempty s : s <> [] -> collapse_leading s <> [].
Proof.
  induction s as [|c0 s IH]; [done|]. intros _.
  destruct s as [|c1 s]; [done|].
  rewrite collapse_leading_cons.
  destruct ((SLASH =? c0)%char && (SLASH =? c1)%char); [by apply IH|done].
Qed.

(** The first scan stops at the last of the leading slashes. *)
Lemma skip_leading_spec : forall s fuel pre tail,
  (length s <= fuel)%nat ->
  exists m,
    skip_leading fuel (Ascii.eqb SLASH) (pre ++ s ++ NUL :: tail)
      (Z.of_nat (length pre))
    = Ret (Z.of_nat (length pre + m))
    /\ s = replicate m SLASH ++ collapse_leading s.
Proof.
  induction s as [|c0 s IH]; intros fuel pre tail Hf.
  - exists O. rewrite skip_leading_eq. cbn [app]. rewrite rd_at.
    change (SLASH =? NUL)%char with false. cbn iota.
    split; [do 2 f_equal; lia|done].
  - rewrite skip_leading_eq. cbn [app]. rewrite rd_at.
    destruct s as [|c1 s'].
    + exists O. cbn [app replicate collapse_leading].
      split; [|done].
      replace (pre ++ [c0; NUL] ++ tail)
        with ((pre ++ [c0]) ++ NUL :: tail) by (by rewrite <- app_assoc).
      replace (pre ++ c0 :: NUL :: tail)
        with ((pre ++ [c0]) ++ NUL :: tail) by (by rewrite <- app_assoc).
      replace (Z.of_nat (length pre) + 1)
        with (Z.of_nat (length (pre ++ [c0])))
        by (rewrite length_app, length_cons, length_nil; lia).
      rewrite rd_at. change (SLASH =? NUL)%char with false.
      rewrite Nat.add_0_r. by destruct (SLASH =? c0)%char.
    + rewrite collapse_leading_cons.
      replace (pre ++ c0 :: (c1 :: s') ++ NUL :: tail)
        with ((pre ++ [c0]) ++ c1 :: s' ++ NUL :: tail)
        by (by rewrite <- app_assoc).
      replace (Z.of_nat (length pre) + 1)
        with (Z.of_nat (length (pre ++ [c0])))
        by (rewrite length_app, length_cons, length_nil; lia).
      rewrite rd_at.
      destruct (SLASH =? c0)%char eqn:H0; cbn [andb];
        [|exists O; rewrite Nat.add_0_r; done].
      destruct (SLASH =? c1)%char eqn:H1;
        [|exists O; rewrite Nat.add_0_r; done].
      apply Ascii.eqb_eq in H0 as <-.
      destruct fuel as [|fuel]; [rewrite length_cons in Hf; lia|].
      destruct (IH fuel (pre ++ [SLASH]) tail) as (m & Hm & Hs);
        [rewrite length_cons in Hf; lia|].
      exists (S m). split.
      * cbn [app] in Hm. rewrite Hm. do 2 f_equal.
        rewrite length_app, length_cons, length_nil. lia.
      * cbn [replicate app]. by rewrite <- Hs.
Qed.

(** The second scan stops at the last byte that is not a trailing slash. *)
Lemma trim_trailing_spec : forall t fuel pre body tail,
  (t <= fuel)%nat ->
  body <> [] ->
  length body = 1%nat \/ last body <> Some SLASH ->
  trim_trailing fuel (Ascii.eqb SLASH)
    (pre ++ body ++ replicate t SLASH ++ tail)
    (Z.of_nat (length pre)) (Z.of_nat (length body + t) - 1)
  = Ret (Z.of_nat (length body) - 1).
Proof.
  induction t as [|t IH]; intros fuel pre body tail Hf Hne Hlast.
  - rewrite trim_trailing_eq. rewrite Nat.add_0_r.
    destruct (Z.ltb_spec 0 (Z.of_nat (length body) - 1)) as [Hpos|]; [|done].
    destruct Hlast as [Hone|Hlast]; [lia|].
    destruct body as [|x body' _] using rev_ind; [done|].
    rewrite last_snoc in Hlast.
    replace (pre ++ (body' ++ [x]) ++ replicate 0 SLASH ++ tail)
      with ((pre ++ body') ++ x :: tail)
      by (cbn [replicate app]; by rewrite <- !app_assoc).
    replace (Z.of_nat (length pre) + (Z.of_nat (length (body' ++ [x])) - 1))
      with (Z.of_nat (length (pre ++ body')))
      by (rewrite !length_app, length_cons, length_nil; lia).
    rewrite rd_at.
    destruct (Ascii.eqb_spec SLASH x) as [<-|_]; done.
  - rewrite trim_trailing_eq.
    assert (Hb : (0 < length body)%nat)
      by (destruct body; [done|rewrite length_cons; lia]).
    destruct (Z.ltb_spec 0 (Z.of_nat (length body + S t) - 1)); [|lia].
    replace (pre ++ body ++ replicate (S t) SLASH ++ tail)
      with ((pre ++ body ++ replicate t SLASH) ++ SLASH :: tail)
      by (rewrite replicate_S_end, <- !app_assoc; done).
    replace (Z.of_nat (length pre) + (Z.of_nat (length body + S t) - 1))
      with (Z.of_nat (length (pre ++ body ++ replicate t SLASH)))
      by (rewrite !length_app, length_replicate; lia).
    rewrite rd_at. rewrite Ascii.eqb_refl.
    destruct fuel as [|fuel]; [lia|].
    replace (Z.of_nat (length body + S t) - 1 - 1)
      with (Z.of_nat (length body + t) - 1) by lia.
    rewrite <- !app_assoc.
    apply (IH fuel pre body (SLASH :: tail)); [lia|done|done].
Qed.

(** Every string that is not empty is a body, which does not end in a
    slash unless it is one byte, and trailing slashes. *)
Lemma trailing_slashes_split (s : list ascii) :
  s <> [] ->
  exists body t,
    s = body ++ replicate t SLASH /\ body <> []
    /\ (length body = 1%nat \/ last body <> Some SLASH).
Proof.
  induction s as [|x s IH] using rev_ind; [done|]. intros _.
  destruct (decide (x = SLASH)) as [->|Hx].
  - destruct s as [|y s'] eqn:Hs.
    + exists [SLASH], O. split; [done|]. split; [done|]. by left.
    + rewrite <- Hs in *. destruct IH as (body & t & Hb & Hne & Hl); [by subst|].
      exists body, (S t). split; [|done].
      by rewrite replicate_S_end, app_assoc, <- Hb.
  - exists (s ++ [x]), O. split; [by rewrite app_nil_r|].
    split; [by destruct s|]. right. rewrite last_snoc. congruence.
Qed.

(** ** The missing-leaf step on a path that is not empty *)

Lemma size_wrap_small z : 0 <= z <= SIZE_MAX -> size_wrap z = z.
Proof.
  intros H. unfold size_wrap. apply Z.mod_small. unfold SIZE_MAX in *. lia.
Qed.

Lemma bind_Ret_l {A B : Type} (a : A) (k : A -> outcome B) : Ret a ≫= k = k a.
Proof. reflexivity. Qed.

Lemma drop_S_app_cons (l1 l2 : list ascii) (x : ascii) :
  drop (S (length l1)) (l1 ++ x :: l2) = l2.
Proof. induction l1 as [|y l1 IH]; [done|]. exact IH. Qed.

Section MissingLeaf.
Context {P : Platform}.

Lemma missing_leaf_posix_spec os e lead body t rest :
  Z.of_nat (length (lead ++ body ++ replicate t SLASH ++ NUL :: rest))
    <= SIZE_MAX ->
  NUL ∉ body ->
  body <> [] ->
  length body = 1%nat \/ last body <> Some SLASH ->
  skip_leading (length (lead ++ body ++ replicate t SLASH ++ NUL :: rest))
    (Ascii.eqb SLASH) (lead ++ body ++ replicate t SLASH ++ NUL :: rest) 0
  = Ret (Z.of_nat (length lead)) ->
  missing_leaf_posix os (lead ++ body ++ replicate t SLASH ++ NUL :: rest) e
  = Ret (match strrchr body SLASH with
         | None => (None, lead ++ body ++ replicate t SLASH ++ NUL :: rest, e)
         | Some O =>
             (Some body, lead ++ body ++ replicate t SLASH ++ NUL :: rest, e)
         | Some (S _ as k) =>
             let '(r, e') := xmalloc_realpath os (take k body) e in
             (match r with
              | Some r => Some (r ++ SLASH :: drop (S k) body)
              | None => None
              end, lead ++ body ++ replicate t SLASH ++ NUL :: rest, e')
         end).
Proof.
  intros Hsize Hnul Hne Hlast Hskip.
  unfold missing_leaf_posix. rewrite Hskip, bind_Ret_l.
  assert (Hlen : length (lead ++ body ++ replicate t SLASH ++ NUL :: rest)
                 = (length lead + length body + t + S (length rest))%nat)
    by (rewrite !length_app, length_replicate, length_cons; lia).
  assert (Hb : (0 < length body)%nat)
    by (destruct body; [done|rewrite length_cons; lia]).
  assert (Hstr : str_at (lead ++ body ++ replicate t SLASH ++ NUL :: rest)
                   (Z.of_nat (length lead)) = body ++ replicate t SLASH).
  { rewrite str_at_app, app_assoc. apply cstr_app_nul.
    intros [H|H]%elem_of_app; [done|].
    by apply elem_of_replicate in H as [? _]. }
  unfold strlen.
  rewrite Hstr, (length_app body (replicate t SLASH)), length_replicate.
  assert (Hfuel : (t <= length (lead ++ body ++ replicate t SLASH
                                  ++ NUL :: rest))%nat) by lia.
  assert (Hsize' : Z.of_nat (length lead + length body + t) < SIZE_MAX) by lia.
  clear Hlen Hsize Hskip.
  set (n := length (lead ++ body ++ replicate t SLASH ++ NUL :: rest)) in *.
  rewrite size_wrap_small by lia.
  rewrite trim_trailing_spec by done.
  rewrite bind_Ret_l.
  replace (Z.of_nat (length body) - 1 + 1) with (Z.of_nat (length body)) by lia.
  rewrite size_wrap_small by lia.
  replace (Z.of_nat (length lead) + Z.of_nat (length body))
    with (Z.of_nat (length (lead ++ body))) by (rewrite length_app; lia).
  destruct (replicate t SLASH ++ NUL :: rest) as [|c tl] eqn:Htl.
  { by destruct t. }
  rewrite (app_assoc lead body (c :: tl)).
  rewrite rd_at, bind_Ret_l, wr_at, bind_Ret_l.
  assert (Hstr1 : str_at ((lead ++ body) ++ NUL :: tl) (Z.of_nat (length lead))
                  = body).
  { rewrite <- app_assoc, str_at_app. by apply cstr_app_nul. }
  rewrite Hstr1.
  destruct (strrchr body SLASH) as [[|k]|] eqn:Hk.
  - rewrite bind_Ret_l, wr_at. reflexivity.
  - destruct (rfind_Some _ _ _ Hk) as (x & Hx & Hsep & _).
    apply Ascii.eqb_eq in Hsep as <-.
    pose proof (lookup_lt_Some _ _ _ Hx) as Hklt.
    assert (Hbody : body = take (S k) body ++ SLASH :: drop (S (S k)) body)
      by (symmetry; by apply take_drop_middle).
    assert (Hnul1 : NUL ∉ take (S k) body).
    { intros H. apply Hnul. rewrite Hbody. apply elem_of_app. by left. }
    assert (Hnul2 : NUL ∉ drop (S (S k)) body).
    { intros H. apply Hnul. rewrite Hbody. apply elem_of_app. right.
      by apply elem_of_cons; right. }
    set (hd := take (S k) body) in *. set (tl2 := drop (S (S k)) body) in *.
    assert (Hp1 : (lead ++ body) ++ NUL :: tl
                  = (lead ++ hd) ++ SLASH :: tl2 ++ NUL :: tl).
    { rewrite Hbody at 1. by rewrite <- !app_assoc. }
    assert (Hidx : Z.of_nat (length lead) + Z.of_nat (S k)
                   = Z.of_nat (length (lead ++ hd))).
    { rewrite length_app. unfold hd. rewrite length_take. lia. }
    rewrite Hidx, Hp1, wr_at, bind_Ret_l.
    assert (Hstr2 : str_at ((lead ++ hd) ++ NUL :: tl2 ++ NUL :: tl)
                      (Z.of_nat (length lead)) = hd).
    { rewrite <- app_assoc, str_at_app. by apply cstr_app_nul. }
    rewrite Hstr2.
    destruct (xmalloc_realpath os hd e) as [r e'].
    rewrite wr_at, bind_Ret_l.
    assert (Hstr3 : str_at ((lead ++ hd) ++ SLASH :: tl2 ++ NUL :: tl)
                      (Z.of_nat (length (lead ++ hd)) + 1) = tl2).
    { replace ((lead ++ hd) ++ SLASH :: tl2 ++ NUL :: tl)
        with (((lead ++ hd) ++ [SLASH]) ++ tl2 ++ NUL :: tl)
        by (by rewrite <- (app_assoc _ [SLASH])).
      replace (Z.of_nat (length (lead ++ hd)) + 1)
        with (Z.of_nat (length ((lead ++ hd) ++ [SLASH])))
        by (rewrite (length_app _ [SLASH]), length_cons, length_nil; lia).
      rewrite str_at_app. by apply cstr_app_nul. }
    rewrite Hstr3, bind_Ret_l, <- Hp1, wr_at. reflexivity.
  - rewrite bind_Ret_l, wr_at. reflexivity.
Qed.

Lemma missing_leaf_fuel os path e : missing_leaf os path e <> OutOfFuel.
Proof.
  unfold missing_leaf, missing_leaf_mingw, missing_leaf_posix. intros H.
  destruct ENABLE_PLATFORM_MINGW32.
  - step_fuel H.
    { destruct (is_unc_path _); [done|].
      apply skip_leading_fuel in H; [done|lia|lia]. }
    assert (0 <= x).
    { destruct (is_unc_path _); [by injection H0 as <-|].
      by apply skip_leading_nonneg in H0. }
    step_fuel H. { apply trim_trailing_fuel in H; [done|done|lia]. }
    step_fuel H. step_fuel H. step_fuel H.
    { destruct (get_last_slash _) as [k|]; [|done].
      destruct (k =? _)%nat; [done|].
      step_fuel H. step_fuel H.
      destruct (xmalloc_realpath _ _ _). step_fuel H. done. }
    destruct x3 as [[? ?] ?]. step_fuel H. done.
  - step_fuel H. { apply skip_leading_fuel in H; [done|lia|lia]. }
    assert (0 <= x) by (by apply skip_leading_nonneg in H0).
    step_fuel H. { apply trim_trailing_fuel in H; [done|done|lia]. }
    step_fuel H. step_fuel H. step_fuel H.
    { destruct (strrchr _ _) as [[|k]|]; [done| |done].
      step_fuel H. destruct (xmalloc_realpath _ _ _). step_fuel H. done. }
    destruct x3 as [[? ?] ?]. step_fuel H. done.
Qed.

(** More fuel does not change what a call returns. *)
Lemma realpath_coreutils_fuel_mono os : forall n m path e r,
  (n <= m)%nat ->
  xmalloc_realpath_coreutils n os path e = Ret r ->
  xmalloc_realpath_coreutils m os path e = Ret r.
Proof.
  induction n as [|n IH]; intros m path e r Hnm H; [done|].
  destruct m as [|m]; [lia|]. simpl in H |- *.
  destruct (xmalloc_realpath os (cstr path) E_OK) as [[b|] e0]; [done|].
  destruct (errno_eqb e0 ENOENT); [|done].
  destruct (xmalloc_readlink os (cstr path) e0) as [[target|] e1]; [|done].
  destruct (if relative_target (cstr target)
            then let '(cwd, e2) := xrealloc_getcwd_or_warn os e1 in
                 (xstrdup (concat_path_file cwd (cstr target)), e2)
            else (target, e1)) as [target' e2].
  apply bind_Ret in H as (a & Ha & Hk).
  by rewrite (IH m target' e2 a ltac:(lia) Ha).
Qed.

Lemma realpath_coreutils_returns_unique os path e r1 r2 :
  realpath_coreutils_returns os path e r1 ->
  realpath_coreutils_returns os path e r2 -> r1 = r2.
Proof.
  intros [n1 H1] [n2 H2].
  apply (realpath_coreutils_fuel_mono os n1 (n1 + n2)) in H1; [|lia].
  apply (realpath_coreutils_fuel_mono os n2 (n1 + n2)) in H2; [|lia].
  congruence.
Qed.

Lemma missing_leaf_posix_valid os path e body t :
  valid_cstring path ->
  Z.of_nat (length path) <= SIZE_MAX ->
  collapse_leading (cstr path) = body ++ replicate t SLASH ->
  body <> [] ->
  length body = 1%nat \/ last body <> Some SLASH ->
  missing_leaf_posix os path e
  = Ret (match strrchr body SLASH with
         | None => (None, path, e)
         | Some O => (Some body, path, e)
         | Some (S _ as k) =>
             let '(r, e') := xmalloc_realpath os (take k body) e in
             (match r with
              | Some r => Some (r ++ SLASH :: drop (S k) body)
              | None => None
              end, path, e')
         end).
Proof.
  intros Hv Hsize Hc Hne Hlast.
  destruct (cstr_split path Hv) as [rest Hp].
  destruct (skip_leading_spec (cstr path) (length path) [] rest)
    as (m & Hm & Hs).
  { rewrite Hp at 2. rewrite length_app. lia. }
  rewrite Hc in Hs. cbn [app length Nat.add] in Hm.
  change (Z.of_nat 0) with 0 in Hm. rewrite <- Hp in Hm.
  assert (Hpath : path = replicate m SLASH ++ body ++ replicate t SLASH
                         ++ NUL :: rest).
  { rewrite Hp at 1. rewrite Hs. by rewrite <- !app_assoc. }
  assert (Hnul : NUL ∉ body).
  { intros H. apply (cstr_no_nul path). rewrite Hs.
    apply elem_of_app. right. apply elem_of_app. by left. }
  rewrite Hpath in Hm, Hsize |- *.
  apply missing_leaf_posix_spec; try done.
  rewrite Hm. by rewrite length_replicate.
Qed.

(** A path without a separator behind its leading part has no parent to
    resolve: the step leaves [buf] NULL. *)
Lemma missing_leaf_posix_no_separator os path e leaf t :
  valid_cstring path ->
  Z.of_nat (length path) <= SIZE_MAX ->
  collapse_leading (cstr path) = leaf ++ replicate t SLASH ->
  leaf <> [] ->
  SLASH ∉ leaf ->
  missing_leaf_posix os path e = Ret (None, path, e).
Proof.
  intros Hv Hsize Hc Hne Hns.
  rewrite (missing_leaf_posix_valid os path e leaf t Hv Hsize Hc Hne).
  - destruct (strrchr leaf SLASH) as [k|] eqn:Hk; [|done].
    destruct (rfind_Some _ _ _ Hk) as (x & Hx & Hsep & _).
    apply Ascii.eqb_eq in Hsep as <-.
    by apply list_elem_of_lookup_2 in Hx.
  - right. destruct leaf as [|x leaf' _] using rev_ind; [done|].
    rewrite last_snoc. intros [= ->]. apply Hns, elem_of_app. right.
    apply list_elem_of_singleton. done.
Qed.

(** The missing-leaf step on a path with a separator in front of its
    leaf, from what [realpath] answers for the prefix. *)
Lemma coreutils_leaf_under_prefix fuel os path e err d leaf t :
  ENABLE_PLATFORM_MINGW32 = false ->
  valid_cstring path ->
  Z.of_nat (length path) <= SIZE_MAX ->
  fs_realpath os (cstr path) = inl ENOENT ->
  fs_readlink os (cstr path) = inl err ->
  collapse_leading (cstr path) = d ++ SLASH :: leaf ++ replicate t SLASH ->
  leaf <> [] ->
  SLASH ∉ leaf ->
  xmalloc_realpath_coreutils (S fuel) os path e
  = Ret (if decide (d = []) then (Some (SLASH :: leaf), path, err)
         else match fs_realpath os d with
              | inr r =>
                  (Some (r ++ SLASH :: leaf), path, fs_realpath_errno os d err)
              | inl err' => (None, path, err')
              end).
Proof.
  intros HM Hv Hsize Hrp Hrl Hc Hne Hns.
  rewrite (coreutils_enters_missing_leaf fuel os path e err Hrp Hrl).
  unfold missing_leaf. rewrite HM.
  assert (Hlast : length (d ++ SLASH :: leaf) = 1%nat
                  \/ last (d ++ SLASH :: leaf) <> Some SLASH).
  { right. destruct leaf as [|x leaf' _] using rev_ind; [done|].
    replace (d ++ SLASH :: leaf' ++ [x]) with ((d ++ SLASH :: leaf') ++ [x])
      by (by rewrite <- app_assoc).
    rewrite last_snoc. intros [= ->]. apply Hns, elem_of_app. right.
    by apply list_elem_of_singleton. }
  assert (Hk : strrchr (d ++ SLASH :: leaf) SLASH = Some (length d)).
  { apply rfind_app_last; [done|].
    apply Forall_forall. intros x Hx.
    destruct (Ascii.eqb_spec SLASH x) as [<-|]; done. }
  rewrite (missing_leaf_posix_valid os path err (d ++ SLASH :: leaf) t Hv Hsize);
    [|by rewrite <- app_assoc|by destruct d|done].
  rewrite Hk. destruct (decide (d = [])) as [->|Hd]; [done|].
  assert (Hdl : exists n, length d = S n) by (destruct d; [done|eauto]).
  destruct Hdl as [n Hn]. rewrite Hn. cbv iota beta.
  rewrite <- Hn, take_app_length, drop_S_app_cons.
  unfold xmalloc_realpath. by destruct (fs_realpath os d).
Qed.

(** C1.  Without [ENABLE_PLATFORM_MINGW32], for a path that [realpath]
    does not find and that is not a symlink, and whose text, leading
    duplicate slashes and trailing slashes aside, is a parent prefix, a
    separator and a leaf: when the prefix is not empty the call returns
    the strict canonical form of the prefix, a separator and the leaf as
    it stands, with [errno] as the [realpath] of the prefix left it, or
    NULL with the error of that [realpath] when the prefix does not
    resolve; when the prefix is empty the leaf sits under the root and
    the call returns the separator and the leaf, [errno] being the error
    of [readlink]. *)
Theorem realpath_coreutils_missing_leaf fuel os path e err d leaf t :
  ENABLE_PLATFORM_MINGW32 = false ->
  valid_cstring path ->
  Z.of_nat (length path) <= SIZE_MAX ->
  fs_realpath os (cstr path) = inl ENOENT ->
  fs_readlink os (cstr path) = inl err ->
  collapse_leading (cstr path) = d ++ SLASH :: leaf ++ replicate t SLASH ->
  leaf <> [] ->
  SLASH ∉ leaf ->
  (d <> [] ->
     (forall r,
        fs_realpath os d = inr r ->
        xmalloc_realpath_coreutils (S fuel) os path e
        = Ret (Some (r ++ SLASH :: leaf), path, fs_realpath_errno os d err))
     /\ (forall err',
          fs_realpath os d = inl err' ->
          xmalloc_realpath_coreutils (S fuel) os path e
          = Ret (None, path, err')))
  /\ (d = [] ->
       xmalloc_realpath_coreutils (S fuel) os path e
       = Ret (Some (SLASH :: leaf), path, err)).
Proof.
  intros HM Hv Hsize Hrp Hrl Hc Hne Hns.
  rewrite (coreutils_leaf_under_prefix fuel os path e err d leaf t)
    by done.
  split.
  - intros Hd. destruct (decide (d = [])) as [|_]; [done|].
    split; intros x Hx; by rewrite Hx.
  - intros ->. done.
Qed.

(** C7.  On a dangling link (not found by [realpath], read by
    [readlink]) the call returns what the function returns for the
    target made absolute - the stored text where it is absolute, else
    [concat_path_file] of the working directory and the text - value and
    [errno] as they are: the canonical form of that target when
    [realpath] resolves it; NULL and the error when [realpath] fails
    there otherwise than with [ENOENT]; and, when the target in turn is
    missing and no link, the canonical form of its parent prefix, a
    separator and its leaf (build without [ENABLE_PLATFORM_MINGW32]).
    In general the call is the call on a buffer that holds the absolute
    target. *)
Theorem realpath_coreutils_dangling os path e t :
  fs_realpath os (cstr path) = inl ENOENT ->
  fs_readlink os (cstr path) = inr t ->
  let linktext := cstr t in
  let cwd := fst (xrealloc_getcwd_or_warn os ENOENT) in
  let abs := if relative_target linktext
             then cstr (concat_path_file cwd linktext) else linktext in
  (forall fuel r,
     fs_realpath os abs = inr r ->
     xmalloc_realpath_coreutils (S (S fuel)) os path e
     = Ret (Some r, path, fs_realpath_errno os abs E_OK))
  /\ (forall fuel err,
        fs_realpath os abs = inl err -> err <> ENOENT ->
        xmalloc_realpath_coreutils (S (S fuel)) os path e
        = Ret (None, path, err))
  /\ (forall fuel err d leaf k,
        ENABLE_PLATFORM_MINGW32 = false ->
        fs_realpath os abs = inl ENOENT ->
        fs_readlink os abs = inl err ->
        Z.of_nat (length t) + GROWBY <= SIZE_MAX ->
        Z.of_nat (length (concat_path_file cwd linktext)) < SIZE_MAX ->
        collapse_leading abs = d ++ SLASH :: leaf ++ replicate k SLASH ->
        leaf <> [] -> SLASH ∉ leaf -> d <> [] ->
        xmalloc_realpath_coreutils (S (S fuel)) os path e
        = Ret (match fs_realpath os d with
               | inr r =>
                   (Some (r ++ SLASH :: leaf), path,
                    fs_realpath_errno os d err)
               | inl err' => (None, path, err')
               end))
  /\ exists target e1,
       cstr target = abs
       /\ (forall fuel,
             xmalloc_realpath_coreutils (S fuel) os path e
             = '(buf, _, e') ← xmalloc_realpath_coreutils fuel os target e1;
               Ret (buf, path, e'))
       /\ (forall buf e',
             realpath_coreutils_returns os path e (buf, path, e')
             <-> exists target',
                   realpath_coreutils_returns os target e1
                     (buf, target', e')).
Proof.
  intros Hrp Hrl linktext cwd abs.
  destruct (coreutils_dangling_step os path e t Hrp Hrl)
    as (target & e1 & Ht & Hv & Hlen & Hstep).
  fold linktext cwd in Ht, Hlen. fold abs in Ht.
  split; [|split; [|split]].
  - intros fuel r Hr. rewrite Hstep.
    rewrite (coreutils_realpath_found fuel os target e1 r) by (by rewrite Ht).
    by rewrite Ht.
  - intros fuel err Hr Hne. rewrite Hstep.
    by rewrite (coreutils_realpath_other_error fuel os target e1 err)
      by (by rewrite ?Ht).
  - intros fuel err d leaf k HM Hr Hl Hs1 Hs2 Hc Hne Hns Hd. rewrite Hstep.
    rewrite (coreutils_leaf_under_prefix fuel os target e1 err d leaf k);
      try (by rewrite ?Ht).
    + destruct (decide (d = [])) as [|_]; [done|].
      by destruct (fs_realpath os d).
    + rewrite Hlen. destruct (relative_target linktext); [lia|].
      pose proof (readlink_iterations_range t) as Hrange.
      assert (0 <= Z.of_nat (length t) / GROWBY)
        by (apply Z.div_pos; unfold GROWBY; lia).
      rewrite Z2Nat.id in Hrange by done. unfold GROWBY in *. lia.
  - exists target, e1. split; [done|]. split; [exact Hstep|].
    intros buf e'. split.
    + intros [[|fuel] H]; [done|]. rewrite Hstep in H.
      apply bind_Ret in H as ([[buf' target'] e''] & H & Hret).
      injection Hret as <- <-. exists target', fuel. exact H.
    + intros (target' & fuel & H). exists (S fuel). by rewrite Hstep, H.
Qed.

(** C9.  Without [ENABLE_PLATFORM_MINGW32], on a path that [realpath]
    does not find and that is not a symlink, the access [path[i]] of the
    scan for trailing slashes leaves the buffer exactly when the path is
    the empty string: there [strlen(path) - 1] wraps to [SIZE_MAX] and
    the scan reads at that offset; a path of at least one byte is
    processed within the buffer and the call returns. *)
Theorem realpath_coreutils_empty_path fuel os path e err :
  ENABLE_PLATFORM_MINGW32 = false ->
  valid_cstring path ->
  Z.of_nat (length path) <= SIZE_MAX ->
  fs_realpath os (cstr path) = inl ENOENT ->
  fs_readlink os (cstr path) = inl err ->
  (xmalloc_realpath_coreutils (S fuel) os path e = OutOfBounds
   <-> cstr path = [])
  /\ (cstr path = [] ->
       skip_leading (length path) (Ascii.eqb SLASH) path 0 = Ret 0
       /\ size_wrap (strlen path 0 - 1) = SIZE_MAX
       /\ rd path (0 + SIZE_MAX) = OutOfBounds
       /\ trim_trailing (length path) (Ascii.eqb SLASH) path 0 SIZE_MAX
          = OutOfBounds)
  /\ (cstr path <> [] ->
       exists buf e',
         xmalloc_realpath_coreutils (S fuel) os path e = Ret (buf, path, e')).
Proof.
  intros HM Hv Hsize Hrp Hrl.
  rewrite (coreutils_enters_missing_leaf fuel os path e err Hrp Hrl).
  unfold missing_leaf. rewrite HM.
  assert (Hempty : cstr path = [] ->
            skip_leading (length path) (Ascii.eqb SLASH) path 0 = Ret 0
            /\ size_wrap (strlen path 0 - 1) = SIZE_MAX
            /\ rd path (0 + SIZE_MAX) = OutOfBounds
            /\ trim_trailing (length path) (Ascii.eqb SLASH) path 0 SIZE_MAX
               = OutOfBounds).
  { intros He. destruct (cstr_split path Hv) as [rest Hp].
    rewrite He in Hp. cbn [app] in Hp.
    assert (Hrd : rd path (0 + SIZE_MAX) = OutOfBounds)
      by (apply rd_beyond; lia).
    split; [|split; [|split; [done|]]].
    - assert (Hrd0 : rd path 0 = Ret NUL)
        by (rewrite Hp; exact (rd_at [] NUL rest)).
      by rewrite skip_leading_eq, Hrd0.
    - unfold strlen, str_at. rewrite drop_0, He. reflexivity.
    - rewrite trim_trailing_eq, Hrd. reflexivity. }
  assert (Hfull : cstr path <> [] ->
            exists buf e', missing_leaf_posix os path err = Ret (buf, path, e')).
  { intros Hne.
    assert (Hcne : collapse_leading (cstr path) <> [])
      by (by apply collapse_leading_nonempty).
    destruct (trailing_slashes_split _ Hcne) as (body & t & Hb & Hbne & Hl).
    rewrite (missing_leaf_posix_valid os path err body t Hv Hsize Hb Hbne Hl).
    destruct (strrchr body SLASH) as [[|k]|]; eauto.
    destruct (xmalloc_realpath os (take (S k) body) err) as [r e']. eauto. }
  split; [|split; [exact Hempty|exact Hfull]].
  split.
  - intros Hoob. destruct (cstr path) as [|c s] eqn:Hcs; [done|].
    destruct Hfull as (buf & e' & Hret); [done|]. congruence.
  - intros He. destruct (Hempty He) as (Hsk & Hw & _ & Htrim).
    unfold missing_leaf_posix. rewrite Hsk, bind_Ret_l, Hw, Htrim.
    reflexivity.
Qed.

End MissingLeaf.

(** ** The statements at work *)

Lemma realpath_coreutils_missing_leaf_witness :
  @ENABLE_PLATFORM_MINGW32 posix_build = false
  /\ valid_cstring (xstrdup (lit "/a/b/missing"))
  /\ fs_realpath example_os (lit "/a/b/missing") = inl ENOENT
  /\ fs_readlink example_os (lit "/a/b/missing") = inl ENOENT
  /\ fs_realpath example_os (lit "/a/b") = inr (lit "/r/b")
  /\ fs_realpath_errno example_os (lit "/a/b") ENOENT = EINVAL
  /\ @xmalloc_realpath_coreutils posix_build 1 example_os
       (xstrdup (lit "/a/b/missing")) E_OK
     = Ret (Some (lit "/r/b/missing"), xstrdup (lit "/a/b/missing"), EINVAL).
Proof.
  split; [reflexivity|]. split; [compute_done|].
  split; [reflexivity|]. split; [reflexivity|]. split; [reflexivity|].
  split; [reflexivity|].
  refine (proj1 (proj1 (@realpath_coreutils_missing_leaf posix_build 0
            example_os (xstrdup (lit "/a/b/missing")) E_OK ENOENT
            (lit "/a/b") (lit "missing") 0 _ _ _ _ _ _ _ _) _) (lit "/r/b") _).
  - reflexivity.
  - compute_done.
  - vm_compute; discriminate.
  - reflexivity.
  - reflexivity.
  - reflexivity.
  - discriminate.
  - compute_done.
  - discriminate.
  - reflexivity.
Defined.

(** A name without a separator, absent from a working directory that
    exists: the call returns NULL. *)
Lemma realpath_coreutils_bare_name_fails :
  fs_realpath example_os (lit "missing") = inl ENOENT
  /\ fs_readlink example_os (lit "missing") = inl ENOENT
  /\ fs_getcwd example_os = inr (lit "/home/u")
  /\ fs_realpath example_os (lit ".") = inr (lit "/home/u")
  /\ fs_realpath example_os (lit "/home/u") = inr (lit "/home/u")
  /\ @xmalloc_realpath_coreutils posix_build 1 example_os
       (xstrdup (lit "missing")) E_OK
     = Ret (None, xstrdup (lit "missing"), ENOENT)
  /\ @xmalloc_realpath_coreutils posix_build 9 example_os
       (xstrdup (lit "missing")) E_OK
     <> Ret (Some (lit "/home/u/missing"), xstrdup (lit "missing"), ENOENT).
Proof. repeat split; try reflexivity. vm_compute. discriminate. Qed.

Lemma follow_symlinks_hop_budget_witness :
  0 <= @MAXSYMLINKS posix_build
  /\ (Z.to_nat (@MAXSYMLINKS posix_build + 1) <= 21)%nat
  /\ hops (P := posix_build) example_os 1 (lit "loop") = Some (lit "loop")
  /\ @xmalloc_follow_symlinks posix_build 21 example_os (lit "loop") EIO
     = Some (None, EIO).
Proof.
  split; [vm_compute; discriminate|]. split; [vm_compute; lia|].
  split; [reflexivity|].
  refine (proj1 (proj2 (proj2 (proj2 (proj2
            (@follow_symlinks_hop_budget posix_build example_os (lit "loop")
               EIO 21 _ _))))) 1%nat _ _).
  - vm_compute; discriminate.
  - vm_compute; lia.
  - lia.
  - reflexivity.
Defined.

Lemma xmalloc_readlink_complete_witness :
  fs_readlink (os_all_links (replicate 160 "a"%char)) (lit "l")
  = inr (replicate 160 "a"%char)
  /\ Z.of_nat (length (replicate 160 "a"%char)) + GROWBY <= INT_MAX
  /\ exists buf,
       xmalloc_readlink (os_all_links (replicate 160 "a"%char)) (lit "l") E_OK
       = (Some buf, E_OK)
       /\ take 160 buf = replicate 160 "a"%char
       /\ buf !! 160%nat = Some NUL
       /\ Z.of_nat (length buf) = 240.
Proof.
  split; [reflexivity|]. split; [vm_compute; discriminate|].
  destruct (xmalloc_readlink_complete
              (os_all_links (replicate 160 "a"%char)) (lit "l") E_OK
              (replicate 160 "a"%char) eq_refl)
    as [(buf & Hx & Ht & Hn & Hl & _) _].
  - vm_compute; discriminate.
  - exists buf. split; [exact Hx|]. split; [exact Ht|]. split; [exact Hn|].
    exact Hl.
Defined.

Lemma follow_symlinks_splice_witness :
  hops (P := posix_build) example_os 0 (lit "/tmp/link")
  = Some (lit "/tmp/link")
  /\ fs_readlink example_os (lit "/tmp/link") = inr (lit "sub/file")
  /\ Z.of_nat 0 < @MAXSYMLINKS posix_build
  /\ (1 < 21)%nat
  /\ fs_readlink example_os (lit "/tmp/sub/file") = inl ENOENT
  /\ @xmalloc_follow_symlinks posix_build 21 example_os (lit "/tmp/link") E_OK
     = Some (Some (lit "/tmp/sub/file"), ENOENT).
Proof.
  split; [reflexivity|]. split; [reflexivity|]. split; [reflexivity|].
  split; [lia|]. split; [reflexivity|].
  destruct (proj1 (proj2 (proj2
              (@follow_symlinks_splice posix_build example_os
                 (lit "/tmp/link") E_OK 21 0 (lit "/tmp/link")
                 (lit "sub/file") eq_refl eq_refl eq_refl ltac:(lia))))
              eq_refl)
    as (parent & last & _ & _ & _ & Hs & Hend).
  rewrite <- Hs in Hend. apply (Hend ENOENT); [reflexivity|by right].
Defined.

Lemma follow_symlinks_read_error_witness :
  hops (P := mingw_build) os_no_symlinks 0 (lit "C:/x") = Some (lit "C:/x")
  /\ fs_readlink os_no_symlinks (lit "C:/x") = inl ENOSYS
  /\ Z.of_nat 0 <= @MAXSYMLINKS mingw_build
  /\ (0 < 1)%nat
  /\ @xmalloc_follow_symlinks mingw_build 1 os_no_symlinks (lit "C:/x") E_OK
     = Some (Some (lit "C:/x"), ENOSYS).
Proof.
  split; [reflexivity|]. split; [reflexivity|].
  split; [vm_compute; discriminate|]. split; [lia|].
  refine (proj1 (proj2 (@follow_symlinks_read_error mingw_build os_no_symlinks
            (lit "C:/x") E_OK 1 0 (lit "C:/x") ENOSYS eq_refl eq_refl _ _))
            eq_refl eq_refl).
  - vm_compute; discriminate.
  - lia.
Defined.

Lemma follow_symlinks_exhausted_errno_witness :
  0 <= @MAXSYMLINKS posix_build
  /\ hops (P := posix_build) example_os
       (Z.to_nat (@MAXSYMLINKS posix_build + 1)) (lit "loop")
     = Some (lit "loop")
  /\ (Z.to_nat (@MAXSYMLINKS posix_build + 1) <= 21)%nat
  /\ @xmalloc_follow_symlinks posix_build 21 example_os (lit "loop") EACCES
     = Some (None, EACCES).
Proof.
  split; [vm_compute; discriminate|]. split; [reflexivity|].
  split; [vm_compute; lia|].
  refine (proj1 (proj2 (@follow_symlinks_exhausted_errno posix_build example_os
            (lit "loop") 21 (lit "loop") _ eq_refl _) eq_refl) EACCES).
  - vm_compute; discriminate.
  - vm_compute; lia.
Defined.

(** A caller that clears [errno] before the call sees the spent budget:
    NULL with [errno] 0 on the link that names itself, and a different
    outcome from every call that ends on an error of [readlink], none of
    which is 0; so from the call on a system without symlink support. *)
Lemma follow_symlinks_spent_budget_seen :
  @xmalloc_follow_symlinks posix_build 21 example_os (lit "loop") E_OK
  = Some (None, E_OK)
  /\ @xmalloc_follow_symlinks posix_build 21 os_no_symlinks (lit "x") E_OK
     = Some (None, ENOSYS)
  /\ forall os' path' N q err,
       hops (P := posix_build) os' N path' = Some q ->
       Z.of_nat N <= 20 ->
       fs_readlink os' q = inl err ->
       err <> E_OK ->
       @xmalloc_follow_symlinks posix_build 21 os' path' E_OK
       <> @xmalloc_follow_symlinks posix_build 21 example_os (lit "loop") E_OK.
Proof.
  split; [reflexivity|]. split; [reflexivity|].
  intros os' path' N q err Hq HN Hr Hne.
  rewrite (@follow_chain_ends posix_build os' path' E_OK 21 N q err Hq Hr)
    by (cbn; lia).
  change (@xmalloc_follow_symlinks posix_build 21 example_os (lit "loop") E_OK)
    with (@Some (option (list ascii) * errno_t) (None, E_OK)).
  destruct (not_a_link err); [done|]. by intros [= ->].
Qed.

Lemma realpath_coreutils_existing_witness :
  fs_realpath example_os (cstr (xstrdup (lit "/a/b"))) = inr (lit "/r/b")
  /\ fs_realpath_errno example_os (lit "/a/b") E_OK = EINVAL
  /\ @xmalloc_realpath_coreutils posix_build 1 example_os
       (xstrdup (lit "/a/b")) EIO
     = Ret (Some (lit "/r/b"), xstrdup (lit "/a/b"), EINVAL).
Proof.
  split; [reflexivity|]. split; [reflexivity|].
  exact (proj1 (@realpath_coreutils_existing posix_build 0 example_os
                  (xstrdup (lit "/a/b")) EIO (lit "/r/b") eq_refl)).
Defined.

Lemma realpath_coreutils_dangling_witness :
  fs_realpath example_os (cstr (xstrdup (lit "/a/b/dangling"))) = inl ENOENT
  /\ fs_readlink example_os (cstr (xstrdup (lit "/a/b/dangling")))
     = inr (lit "x")
  /\ fs_getcwd example_os = inr (lit "/home/u")
  /\ fs_realpath example_os (lit "/home/u/x") = inl ENOENT
  /\ fs_readlink example_os (lit "/home/u/x") = inl ENOENT
  /\ fs_realpath example_os (lit "/home/u") = inr (lit "/home/u")
  /\ @xmalloc_realpath_coreutils posix_build 2 example_os
       (xstrdup (lit "/a/b/dangling")) E_OK
     = Ret (Some (lit "/home/u/x"), xstrdup (lit "/a/b/dangling"), EINVAL).
Proof.
  split; [reflexivity|]. split; [reflexivity|]. split; [reflexivity|].
  split; [reflexivity|]. split; [reflexivity|]. split; [reflexivity|].
  refine (proj1 (proj2 (proj2
            (@realpath_coreutils_dangling posix_build example_os
               (xstrdup (lit "/a/b/dangling")) E_OK (lit "x")
               eq_refl eq_refl)))
            0%nat ENOENT (lit "/home/u") (lit "x") 0%nat
            eq_refl eq_refl eq_refl _ _ eq_refl _ _ _).
  - vm_compute; discriminate.
  - vm_compute; reflexivity.
  - discriminate.
  - compute_done.
  - discriminate.
Defined.

Lemma realpath_coreutils_frame_witness :
  @xmalloc_realpath_coreutils posix_build 1 example_os
    (xstrdup (lit "//a/b/missing//")) E_OK
  = Ret (Some (lit "/r/b/missing"), xstrdup (lit "//a/b/missing//"), EINVAL)
  /\ xstrdup (lit "//a/b/missing//") = xstrdup (lit "//a/b/missing//").
Proof.
  split; [reflexivity|].
  exact (proj1 (@realpath_coreutils_frame posix_build 1 example_os
                  (xstrdup (lit "//a/b/missing//")) E_OK
                  (Some (lit "/r/b/missing"))
                  (xstrdup (lit "//a/b/missing//")) EINVAL eq_refl)).
Defined.

Lemma realpath_coreutils_empty_path_witness :
  @ENABLE_PLATFORM_MINGW32 posix_build = false
  /\ valid_cstring (xstrdup (lit ""))
  /\ Z.of_nat (length (xstrdup (lit ""))) <= SIZE_MAX
  /\ fs_realpath example_os (cstr (xstrdup (lit ""))) = inl ENOENT
  /\ fs_readlink example_os (cstr (xstrdup (lit ""))) = inl ENOENT
  /\ @xmalloc_realpath_coreutils posix_build 1 example_os
       (xstrdup (lit "")) E_OK
     = OutOfBounds.
Proof.
  split; [reflexivity|]. split; [compute_done|].
  split; [vm_compute; discriminate|]. split; [reflexivity|].
  split; [reflexivity|].
  refine (proj2 (proj1 (@realpath_coreutils_empty_path posix_build 0 example_os
            (xstrdup (lit "")) E_OK ENOENT eq_refl _ _ eq_refl eq_refl))
            eq_refl).
  - compute_done.
  - vm_compute; discriminate.
Defined.

(** * Further properties of the code *)

(** ** xmalloc_readlink and xmalloc_readlink_or_warn *)

(** X2.  [xmalloc_readlink] returns NULL exactly when [readlink] fails,
    and [errno] is then the error of [readlink]; otherwise the buffer has
    a terminator, its string is the stored text up to the first NUL of
    the text, and [errno] is left as it was. *)
Theorem xmalloc_readlink_null_iff os path e :
  (fst (xmalloc_readlink os path e) = None
   <-> exists err, fs_readlink os path = inl err)
  /\ (forall err,
        fs_readlink os path = inl err ->
        xmalloc_readlink os path e = (None, err))
  /\ (forall buf e',
        xmalloc_readlink os path e = (Some buf, e') ->
        e' = e /\ valid_cstring buf
        /\ exists t, fs_readlink os path = inr t /\ cstr buf = cstr t
                     /\ take (length t) buf = t).
Proof.
  split; [|split].
  - destruct (fs_readlink os path) as [err|t] eqn:Hr.
    + rewrite (xmalloc_readlink_error os path e err Hr). split; [eauto|done].
    + destruct (xmalloc_readlink_text os path e t Hr) as (rest & _ & -> & _).
      split; [done|]. intros [err Herr]. done.
  - intros err Hr. by apply xmalloc_readlink_error.
  - intros buf e' Hx. destruct (fs_readlink os path) as [err|t] eqn:Hr.
    + by rewrite (xmalloc_readlink_error os path e err Hr) in Hx.
    + destruct (xmalloc_readlink_text os path e t Hr) as (rest & _ & Ht & _).
      rewrite Ht in Hx. injection Hx as <- <-. split; [done|]. split.
      * unfold valid_cstring. apply elem_of_app. right. apply elem_of_cons.
        by left.
      * exists t. split; [done|]. split; [apply cstr_app_cstr|].
        by rewrite take_app_length.
Qed.

(** X1.  [xmalloc_readlink_or_warn] returns what [xmalloc_readlink]
    returns.  It issues no diagnostic when the link is read, and exactly
    one when it is not: the path, ": cannot read link: " and the text of
    [strerror] for the error, but "not a symlink" when the error is
    [EINVAL]. *)
Theorem readlink_or_warn_reports strerror os path e diag :
  fst (xmalloc_readlink_or_warn strerror os path e diag)
  = fst (xmalloc_readlink os path e)
  /\ match fs_readlink os path with
     | inr _ => snd (xmalloc_readlink_or_warn strerror os path e diag) = diag
     | inl err =>
         xmalloc_readlink_or_warn strerror os path e diag
         = (None,
            diag ++ [path ++ lit ": cannot read link: "
                          ++ (if decide (err = EINVAL)
                              then lit "not a symlink" else strerror err)])
     end.
Proof.
  unfold xmalloc_readlink_or_warn.
  destruct (fs_readlink os path) as [err|t] eqn:Hr.
  - rewrite (xmalloc_readlink_error os path e err Hr). split; [done|].
    unfold bb_error_msg, errno_eqb.
    destruct (decide (err = EINVAL)) as [->|Hne]; [done|].
    by rewrite bool_decide_eq_false_2.
  - destruct (xmalloc_readlink_text os path e t Hr) as (rest & _ & -> & _).
    done.
Qed.

Section FollowSymlinksMore.
Context {P : Platform}.

(** ** xmalloc_follow_symlinks *)

Lemma follow_loop_result os : forall fuel buf bufsize looping e q e',
  follow_loop fuel os buf bufsize looping e = Some (Some q, e') ->
  fs_readlink os q = inl e' /\ not_a_link e' = true
  /\ exists N, hops os N buf = Some q /\ (N < fuel)%nat
               /\ (0 < looping -> Z.of_nat N < looping).
Proof.
  induction fuel as [|fuel IH]; intros buf bs looping e q e' H; [done|].
  destruct (fs_readlink os buf) as [err|t] eqn:Hr.
  - rewrite (follow_loop_error _ _ _ _ _ _ err Hr) in H.
    destruct (not_a_link err) eqn:Hnl; [|done].
    injection H as <- <-. split; [done|]. split; [done|].
    exists O. split; [done|]. split; lia.
  - rewrite (follow_loop_link _ _ _ _ bs _ _ t Hr) in H.
    destruct (Z.eqb_spec (looping - 1) 0) as [|Hl]; [done|].
    destruct (IH _ _ _ _ _ _ H) as (Hq & Hnl & N & HN & Hf & Hlo).
    split; [done|]. split; [done|].
    exists (S N). split; [simpl; by rewrite Hr|]. split; lia.
Qed.

(** X3.  The path [xmalloc_follow_symlinks] returns is not a symlink
    for [readlink]: reading it fails with [EINVAL] or [ENOENT] (or
    [ENOSYS] on MinGW), that error is what [errno] holds, and the path is
    reached from the starting path by at most [MAXSYMLINKS] hops. *)
Theorem follow_symlinks_result_not_link os path e fuel q e' :
  0 <= MAXSYMLINKS ->
  xmalloc_follow_symlinks fuel os path e = Some (Some q, e') ->
  fs_readlink os q = inl e'
  /\ (e' = EINVAL \/ e' = ENOENT
      \/ (e' = ENOSYS /\ ENABLE_PLATFORM_MINGW32 = true))
  /\ exists N, Z.of_nat N <= MAXSYMLINKS /\ hops os N path = Some q.
Proof.
  intros HM H. unfold xmalloc_follow_symlinks in H.
  destruct (follow_loop_result os _ _ _ _ _ _ _ H)
    as (Hq & Hnl & N & HN & _ & Hlo).
  split; [done|]. split.
  - unfold not_a_link, errno_eqb in Hnl.
    destruct (decide (e' = EINVAL)) as [->|H1]; [by left|].
    destruct (decide (e' = ENOENT)) as [->|H2]; [by right; left|].
    rewrite !bool_decide_eq_false_2 in Hnl by done. cbn [orb] in Hnl.
    apply andb_prop in Hnl as [Hm He].
    apply bool_decide_eq_true_1 in He. right. right. done.
  - exists N. split; [lia|done].
Qed.

(** X4.  Following is idempotent: called on a path it has returned,
    [xmalloc_follow_symlinks] returns that path again after one read,
    whatever [errno] held. *)
Theorem follow_symlinks_idempotent os path e fuel q e' :
  0 <= MAXSYMLINKS ->
  xmalloc_follow_symlinks fuel os path e = Some (Some q, e') ->
  forall fuel' e0,
    (0 < fuel')%nat ->
    xmalloc_follow_symlinks fuel' os q e0 = Some (Some q, e').
Proof.
  intros HM H fuel' e0 Hf. unfold xmalloc_follow_symlinks in H.
  destruct (follow_loop_result os _ _ _ _ _ _ _ H) as (Hq & Hnl & _).
  rewrite (follow_chain_ends os q e0 fuel' 0 q e' eq_refl Hq) by lia.
  by rewrite Hnl.
Qed.

Lemma follow_loop_local os os' : forall fuel buf bufsize looping e,
  0 < looping ->
  (forall n q,
     (n < fuel)%nat -> Z.of_nat n < looping -> hops os n buf = Some q ->
     fs_readlink os' q = fs_readlink os q) ->
  follow_loop fuel os' buf bufsize looping e
  = follow_loop fuel os buf bufsize looping e.
Proof.
  induction fuel as [|fuel IH]; intros buf bs looping e Hl Hsame; [done|].
  assert (H0 : fs_readlink os' buf = fs_readlink os buf)
    by (apply (Hsame O); [lia|lia|done]).
  destruct (fs_readlink os buf) as [err|t] eqn:Hr.
  - by rewrite (follow_loop_error _ os' _ _ _ _ err H0),
      (follow_loop_error _ os _ _ _ _ err Hr).
  - rewrite (follow_loop_link _ os' _ _ bs _ _ t H0),
      (follow_loop_link _ os _ _ bs _ _ t Hr).
    destruct (Z.eqb_spec (looping - 1) 0) as [|Hne]; [done|].
    apply IH; [lia|]. intros n q Hn Hlo Hq.
    apply (Hsame (S n)); [lia|lia|]. simpl. by rewrite Hr.
Qed.

(** X5.  [xmalloc_follow_symlinks] asks the system for nothing but the
    text of the link at the paths of the chain, the starting path and at
    most [MAXSYMLINKS] more: two file systems that answer [readlink]
    alike at those paths give the same result, however they differ
    elsewhere (at the directories in front of the last component, in
    what [realpath] answers, in the working directory). *)
Theorem follow_symlinks_reads_only_chain os os' path e fuel :
  0 <= MAXSYMLINKS ->
  (forall n q,
     Z.of_nat n <= MAXSYMLINKS -> hops os n path = Some q ->
     fs_readlink os' q = fs_readlink os q) ->
  xmalloc_follow_symlinks fuel os' path e
  = xmalloc_follow_symlinks fuel os path e.
Proof.
  intros HM Hsame. unfold xmalloc_follow_symlinks.
  apply follow_loop_local; [lia|].
  intros n q _ Hn Hq. apply (Hsame n q); [lia|done].
Qed.

Lemma follow_state_hops os : forall n buf bufsize buf' bufsize',
  Z.of_nat (length buf) + 1 <= bufsize ->
  follow_state os n buf bufsize = Some (buf', bufsize') ->
  Z.of_nat (length buf') + 1 <= bufsize' /\ hops os n buf = Some buf'.
Proof.
  induction n as [|n IH]; intros buf bs buf' bs' Hcap H;
    cbn [follow_state hops] in H |- *.
  - by injection H as <- <-.
  - destruct (fs_readlink os buf) as [|t]; [done|]. unfold splice.
    destruct (relative_target (cstr t)).
    + exact (IH _ _ _ _ (splice_fits buf (cstr t) bs Hcap) H).
    + assert (Hc : Z.of_nat (length (cstr t)) + 1
                   <= Z.of_nat (length (cstr t)) + 1) by lia.
      exact (IH _ _ _ _ Hc H).
Qed.

Lemma follow_loop_state os : forall n fuel buf bufsize looping e buf' bufsize',
  follow_state os n buf bufsize = Some (buf', bufsize') ->
  Z.of_nat n < looping ->
  follow_loop (n + fuel) os buf bufsize looping e
  = follow_loop fuel os buf' bufsize' (looping - Z.of_nat n) e.
Proof.
  induction n as [|n IH]; intros fuel buf bs looping e buf' bs' H Hl.
  - simpl in H. injection H as <- <-. simpl. f_equal. lia.
  - simpl in H. destruct (fs_readlink os buf) as [|t] eqn:Hr; [done|].
    change (S n + fuel)%nat with (S (n + fuel)). simpl.
    destruct (xmalloc_readlink_text os buf e t Hr) as (rest & _ & -> & _).
    rewrite cstr_app_cstr.
    destruct (Z.eqb_spec (looping - 1) 0); [lia|].
    destruct (relative_target (cstr t)).
    + rewrite (IH fuel _ _ (looping - 1) e buf' bs' H) by lia. f_equal. lia.
    + rewrite (IH fuel _ _ (looping - 1) e buf' bs' H) by lia. f_equal. lia.
Qed.

(** X6.  The capacity [xmalloc_follow_symlinks] keeps in [bufsize] holds
    the path and its terminator at the top of every round, so the
    [strcpy] of a relative target at the last component stays within the
    bytes asked of [xrealloc] for it ([int] taken without overflow). *)
Theorem follow_symlinks_capacity os path n buf bufsize :
  follow_state os n path (Z.of_nat (length path) + 1) = Some (buf, bufsize) ->
  Z.of_nat (length buf) + 1 <= bufsize
  /\ hops os n path = Some buf
  /\ (forall fuel e,
        Z.of_nat n <= MAXSYMLINKS ->
        xmalloc_follow_symlinks (n + fuel) os path e
        = follow_loop fuel os buf bufsize (MAXSYMLINKS + 1 - Z.of_nat n) e)
  /\ (forall linkpath : list ascii,
        Z.of_nat (bb_get_last_path_component_strip buf)
          + Z.of_nat (length linkpath) + 1
        <= bufsize + Z.of_nat (length linkpath)).
Proof.
  intros H.
  destruct (follow_state_hops os n path (Z.of_nat (length path) + 1)
              buf bufsize ltac:(lia) H) as [Hcap Hh].
  split; [done|]. split; [done|]. split.
  - intros fuel e Hn. unfold xmalloc_follow_symlinks.
    by rewrite (follow_loop_state os n fuel _ _ _ e buf bufsize H) by lia.
  - intros linkpath.
    pose proof (bb_get_last_path_component_strip_le buf). lia.
Qed.

End FollowSymlinksMore.

Section RealpathCoreutilsMore.
Context {P : Platform}.

(** ** xmalloc_realpath_coreutils *)

Lemma xmalloc_realpath_None os p e e' :
  xmalloc_realpath os p e = (None, e') -> fs_realpath os p = inl e'.
Proof.
  unfold xmalloc_realpath. destruct (fs_realpath os p); [|done].
  by intros [= ->].
Qed.

Lemma xmalloc_readlink_None os p e e' :
  xmalloc_readlink os p e = (None, e') -> fs_readlink os p = inl e'.
Proof.
  intros H. destruct (xmalloc_readlink_cases os p e)
    as [(err & Hr & Hx)|(t & lp & _ & Hx & _)]; congruence.
Qed.

Lemma missing_leaf_null_errno os path e path' e' :
  (forall p, fs_realpath os p <> inl E_OK) ->
  e <> E_OK ->
  missing_leaf os path e = Ret (None, path', e') -> e' <> E_OK.
Proof.
  intros Hrp He. unfold missing_leaf, missing_leaf_mingw, missing_leaf_posix.
  destruct ENABLE_PLATFORM_MINGW32; intros H.
  - apply bind_Ret in H as (p & _ & H).
    apply bind_Ret in H as (i & _ & H).
    apply bind_Ret in H as (c & _ & H).
    apply bind_Ret in H as (path1 & _ & H).
    apply bind_Ret in H as ([[buf1 path3] e3] & Hmid & H).
    apply bind_Ret in H as (path4 & _ & H).
    injection H as -> _ ->.
    destruct (get_last_slash (str_at path1 p)) as [k|];
      [|by injection Hmid as _ <-].
    destruct (k =? root_len (str_at path1 p))%nat; [done|].
    apply bind_Ret in Hmid as (c2 & _ & Hmid).
    apply bind_Ret in Hmid as (path2 & _ & Hmid).
    destruct (xmalloc_realpath os (str_at path2 p) e) as [r e2] eqn:Hr.
    apply bind_Ret in Hmid as (path3' & _ & Hmid).
    injection Hmid as Hb _ <-. destruct r; [done|].
    apply xmalloc_realpath_None in Hr. intros ->. by apply (Hrp _ Hr).
  - apply bind_Ret in H as (p & _ & H).
    apply bind_Ret in H as (i & _ & H).
    apply bind_Ret in H as (c & _ & H).
    apply bind_Ret in H as (path1 & _ & H).
    apply bind_Ret in H as ([[buf1 path3] e3] & Hmid & H).
    apply bind_Ret in H as (path4 & _ & H).
    injection H as -> _ ->.
    destruct (strrchr (str_at path1 p) SLASH) as [[|k]|];
      [done| |by injection Hmid as _ <-].
    apply bind_Ret in Hmid as (path2 & _ & Hmid).
    destruct (xmalloc_realpath os (str_at path2 p) e) as [r e2] eqn:Hr.
    apply bind_Ret in Hmid as (path3' & _ & Hmid).
    injection Hmid as Hb _ <-. destruct r; [done|].
    apply xmalloc_realpath_None in Hr. intros ->. by apply (Hrp _ Hr).
Qed.

(** X7.  When [xmalloc_realpath_coreutils] returns NULL, [errno] holds
    the error of the call of [realpath] or [readlink] that made it fail:
    it is never 0, given that these system calls do not fail with
    [errno] 0.  This holds though the function starts with [errno = 0],
    on both builds. *)
Theorem realpath_coreutils_null_errno os :
  (forall p, fs_readlink os p <> inl E_OK) ->
  (forall p, fs_realpath os p <> inl E_OK) ->
  forall fuel path e path' e',
    xmalloc_realpath_coreutils fuel os path e = Ret (None, path', e') ->
    e' <> E_OK.
Proof.
  intros Hrl Hrp. induction fuel as [|fuel IH]; intros path e path' e' H;
    [done|].
  simpl in H.
  destruct (xmalloc_realpath os (cstr path) E_OK) as [[b|] e0] eqn:Hr0;
    [done|].
  apply xmalloc_realpath_None in Hr0.
  assert (He0 : e0 <> E_OK) by (intros ->; by apply (Hrp _ Hr0)).
  destruct (errno_eqb e0 ENOENT); [|by injection H as _ <-].
  destruct (xmalloc_readlink os (cstr path) e0) as [[target|] e1] eqn:Hx.
  - destruct (if relative_target (cstr target)
              then let '(cwd, e2) := xrealloc_getcwd_or_warn os e1 in
                   (xstrdup (concat_path_file cwd (cstr target)), e2)
              else (target, e1)) as [target' e2].
    apply bind_Ret in H as ([[b t'] e3] & Hrec & H).
    injection H as -> _ ->. by apply (IH _ _ _ _ Hrec).
  - apply xmalloc_readlink_None in Hx.
    assert (He1 : e1 <> E_OK) by (intros ->; by apply (Hrl _ Hx)).
    by apply (missing_leaf_null_errno os path e1 path' e').
Qed.

(** X8.  Without [ENABLE_PLATFORM_MINGW32], leading duplicate slashes
    and trailing slashes make no difference to the missing-leaf step:
    two paths that [realpath] does not find, that are no symlinks and
    whose texts agree apart from those slashes get the same answer, and
    each buffer is handed back as it was. *)
Theorem realpath_coreutils_slashes_ignored fuel os path1 path2 e err1 err2
    body t1 t2 :
  ENABLE_PLATFORM_MINGW32 = false ->
  valid_cstring path1 /\ valid_cstring path2 ->
  Z.of_nat (length path1) <= SIZE_MAX /\ Z.of_nat (length path2) <= SIZE_MAX ->
  fs_realpath os (cstr path1) = inl ENOENT
    /\ fs_realpath os (cstr path2) = inl ENOENT ->
  fs_readlink os (cstr path1) = inl err1
    /\ fs_readlink os (cstr path2) = inl err2 ->
  collapse_leading (cstr path1) = body ++ replicate t1 SLASH ->
  collapse_leading (cstr path2) = body ++ replicate t2 SLASH ->
  body <> [] ->
  length body = 1%nat \/ last body <> Some SLASH ->
  exists r e1 e2,
    xmalloc_realpath_coreutils (S fuel) os path1 e = Ret (r, path1, e1)
    /\ xmalloc_realpath_coreutils (S fuel) os path2 e = Ret (r, path2, e2)
    /\ (err1 = err2 -> e1 = e2).
Proof.
  intros HM [Hv1 Hv2] [Hs1 Hs2] [Hrp1 Hrp2] [Hrl1 Hrl2] Hc1 Hc2 Hne Hlast.
  rewrite (coreutils_enters_missing_leaf fuel os path1 e err1 Hrp1 Hrl1).
  rewrite (coreutils_enters_missing_leaf fuel os path2 e err2 Hrp2 Hrl2).
  unfold missing_leaf. rewrite HM.
  rewrite (missing_leaf_posix_valid os path1 err1 body t1 Hv1 Hs1 Hc1 Hne Hlast).
  rewrite (missing_leaf_posix_valid os path2 err2 body t2 Hv2 Hs2 Hc2 Hne Hlast).
  destruct (strrchr body SLASH) as [[|k]|].
  - exists (Some body), err1, err2. done.
  - unfold xmalloc_realpath.
    destruct (fs_realpath os (take (S k) body)) as [err|r].
    + exists None, err, err. done.
    + exists (Some (r ++ SLASH :: drop (S (S k)) body)),
        (fs_realpath_errno os (take (S k) body) err1),
        (fs_realpath_errno os (take (S k) body) err2).
      split; [done|]. split; [done|]. by intros ->.
  - exists None, err1, err2. done.
Qed.

(** X9.  Without [ENABLE_PLATFORM_MINGW32], a path without a separator
    in front of its last component - a bare name, trailing slashes or
    not - that [realpath] does not find and that is no symlink gets
    NULL, with the error of [readlink] in [errno]: [strrchr] finds no
    slash and no branch sets [buf]. *)
Theorem realpath_coreutils_no_separator fuel os path e err name t :
  ENABLE_PLATFORM_MINGW32 = false ->
  valid_cstring path ->
  Z.of_nat (length path) <= SIZE_MAX ->
  fs_realpath os (cstr path) = inl ENOENT ->
  fs_readlink os (cstr path) = inl err ->
  cstr path = name ++ replicate t SLASH ->
  name <> [] ->
  SLASH ∉ name ->
  xmalloc_realpath_coreutils (S fuel) os path e = Ret (None, path, err).
Proof.
  intros HM Hv Hsize Hrp Hrl Hc Hne Hns.
  rewrite (coreutils_enters_missing_leaf fuel os path e err Hrp Hrl).
  unfold missing_leaf. rewrite HM.
  apply (missing_leaf_posix_no_separator os path err name t); try done.
  rewrite Hc. destruct name as [|c0 name']; [done|].
  apply not_elem_of_cons in Hns as [Hc0 _].
  destruct (name' ++ replicate t SLASH) as [|c1 rest] eqn:Hrest.
  - cbn [app]. by rewrite Hrest.
  - cbn [app]. rewrite Hrest, collapse_leading_cons.
    destruct (Ascii.eqb_spec SLASH c0) as [<-|_]; [done|]. done.
Qed.

(** X10.  [xmalloc_realpath_coreutils] has no hop budget.  On a symlink
    that [realpath] does not find and whose stored text, made absolute
    the way the function does it (a relative text is joined to the
    working directory, not to the directory of the link), is the name of
    the link itself, the function calls itself on the same path again
    and again: no number of activations gives a result. *)
Theorem realpath_coreutils_self_named_link os s t :
  fs_realpath os s = inl ENOENT ->
  fs_readlink os s = inr t ->
  (if relative_target (cstr t)
   then cstr (concat_path_file (fst (xrealloc_getcwd_or_warn os ENOENT))
                (cstr t))
   else cstr t) = s ->
  forall fuel path e,
    cstr path = s ->
    xmalloc_realpath_coreutils fuel os path e = OutOfFuel.
Proof.
  intros Hrp Hrl Hself. induction fuel as [|fuel IH]; intros path e Hp;
    [done|].
  simpl. unfold xmalloc_realpath. rewrite Hp, Hrp.
  unfold errno_eqb. rewrite bool_decide_eq_true_2 by done.
  destruct (xmalloc_readlink_text os s ENOENT t Hrl) as (rest & _ & -> & _).
  rewrite cstr_app_cstr.
  destruct (relative_target (cstr t)).
  - destruct (xrealloc_getcwd_or_warn os ENOENT) as [cwd e2].
    rewrite IH; [done|]. unfold xstrdup. by rewrite cstr_app_cstr.
  - rewrite IH; [done|]. by rewrite cstr_app_cstr.
Qed.

End RealpathCoreutilsMore.

(** ** The missing-leaf step of the MinGW build *)

Lemma skip_leading_by_spec sep :
  sep NUL = false ->
  forall s fuel pre tail,
    (length s <= fuel)%nat ->
    exists lead,
      skip_leading fuel sep (pre ++ s ++ NUL :: tail) (Z.of_nat (length pre))
      = Ret (Z.of_nat (length pre + length lead))
      /\ s = lead ++ collapse_leading_by sep s.
Proof.
  intros Hnul. induction s as [|c0 s IH]; intros fuel pre tail Hf.
  - exists []. rewrite skip_leading_eq. cbn [app]. rewrite rd_at, Hnul.
    split; [do 2 f_equal; cbn [length]; lia|done].
  - rewrite skip_leading_eq. cbn [app]. rewrite rd_at.
    destruct s as [|c1 s'].
    + exists []. cbn [app collapse_leading_by length]. split; [|done].
      replace (pre ++ c0 :: NUL :: tail)
        with ((pre ++ [c0]) ++ NUL :: tail) by (by rewrite <- app_assoc).
      replace (Z.of_nat (length pre) + 1)
        with (Z.of_nat (length (pre ++ [c0])))
        by (rewrite length_app, length_cons, length_nil; lia).
      rewrite rd_at, Hnul, Nat.add_0_r. by destruct (sep c0).
    + change (collapse_leading_by sep (c0 :: c1 :: s'))
        with (if sep c0 && sep c1 then collapse_leading_by sep (c1 :: s')
              else c0 :: c1 :: s').
      replace (pre ++ c0 :: (c1 :: s') ++ NUL :: tail)
        with ((pre ++ [c0]) ++ c1 :: s' ++ NUL :: tail)
        by (by rewrite <- app_assoc).
      replace (Z.of_nat (length pre) + 1)
        with (Z.of_nat (length (pre ++ [c0])))
        by (rewrite length_app, length_cons, length_nil; lia).
      rewrite rd_at.
      destruct (sep c0) eqn:H0; cbn [andb];
        [|exists []; cbn [length]; rewrite Nat.add_0_r; done].
      destruct (sep c1) eqn:H1;
        [|exists []; cbn [length]; rewrite Nat.add_0_r; done].
      destruct fuel as [|fuel]; [rewrite length_cons in Hf; lia|].
      destruct (IH fuel (pre ++ [c0]) tail) as (lead & Hm & Hs);
        [rewrite length_cons in Hf; lia|].
      exists (c0 :: lead). split.
      * cbn [app] in Hm. rewrite Hm. do 2 f_equal.
        rewrite length_app, !length_cons, length_nil. lia.
      * cbn [app]. by rewrite <- Hs.
Qed.

Lemma trim_trailing_by_spec sep : forall trail fuel pre body tail,
  (length trail <= fuel)%nat ->
  Forall (fun c => sep c = true) trail ->
  body <> [] ->
  length body = 1%nat
    \/ (exists body' x, body = body' ++ [x] /\ sep x = false) ->
  trim_trailing fuel sep (pre ++ body ++ trail ++ tail)
    (Z.of_nat (length pre)) (Z.of_nat (length body + length trail) - 1)
  = Ret (Z.of_nat (length body) - 1).
Proof.
  induction trail as [|x trail IH] using rev_ind;
    intros fuel pre body tail Hf Hall Hne Hlast.
  - rewrite trim_trailing_eq. cbn [length app]. rewrite Nat.add_0_r.
    destruct (Z.ltb_spec 0 (Z.of_nat (length body) - 1)) as [Hpos|]; [|done].
    destruct Hlast as [Hone|(body' & y & -> & Hy)]; [lia|].
    replace (pre ++ (body' ++ [y]) ++ tail)
      with ((pre ++ body') ++ y :: tail) by (by rewrite <- !app_assoc).
    replace (Z.of_nat (length pre) + (Z.of_nat (length (body' ++ [y])) - 1))
      with (Z.of_nat (length (pre ++ body')))
      by (rewrite !length_app, length_cons, length_nil; lia).
    by rewrite rd_at, Hy.
  - rewrite trim_trailing_eq.
    apply Forall_app in Hall as [Hall Hx].
    apply Forall_cons in Hx as [Hx _].
    assert (Hb : (0 < length body)%nat)
      by (destruct body; [done|rewrite length_cons; lia]).
    rewrite length_app, length_cons, length_nil in Hf |- *.
    destruct (Z.ltb_spec 0 (Z.of_nat (length body + (length trail + 1)) - 1));
      [|lia].
    replace (pre ++ body ++ (trail ++ [x]) ++ tail)
      with ((pre ++ body ++ trail) ++ x :: tail)
      by (by rewrite <- !app_assoc).
    replace (Z.of_nat (length pre)
             + (Z.of_nat (length body + (length trail + 1)) - 1))
      with (Z.of_nat (length (pre ++ body ++ trail)))
      by (rewrite !length_app; lia).
    rewrite rd_at, Hx.
    destruct fuel as [|fuel]; [lia|].
    replace (Z.of_nat (length body + (length trail + 1)) - 1 - 1)
      with (Z.of_nat (length body + length trail) - 1) by lia.
    rewrite <- !app_assoc.
    apply (IH fuel pre body (x :: tail)); [lia|done|done|done].
Qed.

Section MissingLeafMingw.
Context {P : Platform}.

Lemma missing_leaf_mingw_spec os e lead body trail rest :
  Z.of_nat (length (lead ++ body ++ trail ++ NUL :: rest)) <= SIZE_MAX ->
  NUL ∉ body ->
  Forall (fun c => is_dir_sep c = true) trail ->
  is_dir_sep NUL = false ->
  body <> [] ->
  length body = 1%nat
    \/ (exists body' x, body = body' ++ [x] /\ is_dir_sep x = false) ->
  (if is_unc_path (str_at (lead ++ body ++ trail ++ NUL :: rest) 0)
   then Ret 0
   else skip_leading (length (lead ++ body ++ trail ++ NUL :: rest))
          is_dir_sep (lead ++ body ++ trail ++ NUL :: rest) 0)
  = Ret (Z.of_nat (length lead)) ->
  (forall k, get_last_slash body = Some k -> (k < length body)%nat) ->
  missing_leaf_mingw os (lead ++ body ++ trail ++ NUL :: rest) e
  = Ret (match get_last_slash body with
         | None => (None, lead ++ body ++ trail ++ NUL :: rest, e)
         | Some k =>
             if (k =? root_len body)%nat then
               (Some body, lead ++ body ++ trail ++ NUL :: rest, e)
             else
               let '(r, e') := xmalloc_realpath os (take k body) e in
               (match r with
                | Some r => Some (r ++ drop k body)
                | None => None
                end, lead ++ body ++ trail ++ NUL :: rest, e')
         end).
Proof.
  intros Hsize Hnul Htrail Hsnul Hne Hlast Hskip Hin.
  unfold missing_leaf_mingw. rewrite Hskip, bind_Ret_l.
  assert (Hlen : length (lead ++ body ++ trail ++ NUL :: rest)
                 = (length lead + length body + length trail
                    + S (length rest))%nat)
    by (rewrite !length_app, length_cons; lia).
  assert (Hb : (0 < length body)%nat)
    by (destruct body; [done|rewrite length_cons; lia]).
  assert (Htn : NUL ∉ trail).
  { intros Hx. rewrite Forall_forall in Htrail.
    specialize (Htrail _ Hx). congruence. }
  assert (Hstr : str_at (lead ++ body ++ trail ++ NUL :: rest)
                   (Z.of_nat (length lead)) = body ++ trail).
  { rewrite str_at_app, app_assoc. apply cstr_app_nul.
    by intros [H|H]%elem_of_app. }
  unfold strlen.
  rewrite Hstr, (length_app body trail).
  assert (Hfuel : (length trail <= length (lead ++ body ++ trail
                                            ++ NUL :: rest))%nat) by lia.
  assert (Hsize' : Z.of_nat (length lead + length body + length trail)
                   < SIZE_MAX) by lia.
  clear Hlen Hsize Hskip.
  set (n := length (lead ++ body ++ trail ++ NUL :: rest)) in *.
  rewrite size_wrap_small by lia.
  rewrite trim_trailing_by_spec by done.
  rewrite bind_Ret_l.
  replace (Z.of_nat (length body) - 1 + 1) with (Z.of_nat (length body)) by lia.
  rewrite size_wrap_small by lia.
  replace (Z.of_nat (length lead) + Z.of_nat (length body))
    with (Z.of_nat (length (lead ++ body))) by (rewrite length_app; lia).
  destruct (trail ++ NUL :: rest) as [|c tl] eqn:Htl.
  { by destruct trail. }
  rewrite (app_assoc lead body (c :: tl)).
  rewrite rd_at, bind_Ret_l, wr_at, bind_Ret_l.
  assert (Hstr1 : str_at ((lead ++ body) ++ NUL :: tl) (Z.of_nat (length lead))
                  = body).
  { rewrite <- app_assoc, str_at_app. by apply cstr_app_nul. }
  rewrite Hstr1.
  destruct (get_last_slash body) as [k|] eqn:Hk.
  2:{ rewrite bind_Ret_l, wr_at. reflexivity. }
  destruct (k =? root_len body)%nat.
  { rewrite bind_Ret_l, wr_at. reflexivity. }
  specialize (Hin k eq_refl).
  destruct (lookup_lt_is_Some_2 body k Hin) as [c2 Hc2].
  assert (Hbody : body = take k body ++ c2 :: drop (S k) body)
    by (symmetry; by apply take_drop_middle).
  assert (Hdrop : drop k body = c2 :: drop (S k) body)
    by (by apply drop_S).
  assert (Hnul1 : NUL ∉ take k body).
  { intros H. apply Hnul. rewrite Hbody. apply elem_of_app. by left. }
  assert (Hnul2 : NUL ∉ drop (S k) body).
  { intros H. apply Hnul. rewrite Hbody. apply elem_of_app. right.
    by apply elem_of_cons; right. }
  rewrite Hdrop.
  set (hd := take k body) in *. set (tl2 := drop (S k) body) in *.
  assert (Hp1 : (lead ++ body) ++ NUL :: tl
                = (lead ++ hd) ++ c2 :: tl2 ++ NUL :: tl).
  { rewrite Hbody at 1. by rewrite <- !app_assoc. }
  assert (Hidx : Z.of_nat (length lead) + Z.of_nat k
                 = Z.of_nat (length (lead ++ hd))).
  { rewrite length_app. unfold hd. rewrite length_take. lia. }
  rewrite Hidx, Hp1, rd_at, bind_Ret_l, wr_at, bind_Ret_l.
  assert (Hstr2 : str_at ((lead ++ hd) ++ NUL :: tl2 ++ NUL :: tl)
                    (Z.of_nat (length lead)) = hd).
  { rewrite <- app_assoc, str_at_app. by apply cstr_app_nul. }
  rewrite Hstr2.
  destruct (xmalloc_realpath os hd e) as [r e'].
  rewrite wr_at, bind_Ret_l.
  assert (Hstr3 : str_at ((lead ++ hd) ++ c2 :: tl2 ++ NUL :: tl)
                    (Z.of_nat (length (lead ++ hd)) + 1) = tl2).
  { replace ((lead ++ hd) ++ c2 :: tl2 ++ NUL :: tl)
      with (((lead ++ hd) ++ [c2]) ++ tl2 ++ NUL :: tl)
      by (by rewrite <- (app_assoc _ [c2])).
    replace (Z.of_nat (length (lead ++ hd)) + 1)
      with (Z.of_nat (length ((lead ++ hd) ++ [c2])))
      by (rewrite (length_app _ [c2]), length_cons, length_nil; lia).
    rewrite str_at_app. by apply cstr_app_nul. }
  rewrite Hstr3, bind_Ret_l, <- Hp1, wr_at. reflexivity.
Qed.

(** X11.  With [ENABLE_PLATFORM_MINGW32], for a path that [realpath]
    does not find and that is not a symlink, whose text - leading
    duplicate separators aside, unless it is a UNC path, and trailing
    separators aside - is [body]: when [get_last_slash] finds no
    separator in [body] the call returns NULL; when the separator found
    sits right behind the root prefix the call returns [body]; otherwise
    it returns the strict canonical form of what is in front of the
    separator followed by the rest of [body] from that separator on, so
    that the separator stays the one the caller wrote, with [errno] as
    that successful [realpath] leaves it, or NULL with the error of
    [realpath].  The helpers are taken as they are, given that
    NUL is no separator and that [get_last_slash] answers a place inside
    the string. *)
Theorem realpath_coreutils_mingw_leaf fuel os path e err body trail :
  ENABLE_PLATFORM_MINGW32 = true ->
  is_dir_sep NUL = false ->
  (forall k, get_last_slash body = Some k -> (k < length body)%nat) ->
  valid_cstring path ->
  Z.of_nat (length path) <= SIZE_MAX ->
  fs_realpath os (cstr path) = inl ENOENT ->
  fs_readlink os (cstr path) = inl err ->
  (if is_unc_path (cstr path) then cstr path
   else collapse_leading_by is_dir_sep (cstr path)) = body ++ trail ->
  Forall (fun c => is_dir_sep c = true) trail ->
  body <> [] ->
  length body = 1%nat
    \/ (exists body' x, body = body' ++ [x] /\ is_dir_sep x = false) ->
  xmalloc_realpath_coreutils (S fuel) os path e
  = Ret (match get_last_slash body with
         | None => (None, path, err)
         | Some k =>
             if (k =? root_len body)%nat then (Some body, path, err)
             else match fs_realpath os (take k body) with
                  | inr r =>
                      (Some (r ++ drop k body), path,
                       fs_realpath_errno os (take k body) err)
                  | inl err' => (None, path, err')
                  end
         end).
Proof.
  intros HM Hsnul Hin Hv Hsize Hrp Hrl Hc Htrail Hne Hlast.
  rewrite (coreutils_enters_missing_leaf fuel os path e err Hrp Hrl).
  unfold missing_leaf. rewrite HM.
  destruct (cstr_split path Hv) as [rest Hp].
  assert (Hstr0 : str_at path 0 = cstr path) by (unfold str_at; by rewrite drop_0).
  assert (Hlead : exists lead,
            (if is_unc_path (str_at path 0) then Ret 0
             else skip_leading (length path) is_dir_sep path 0)
            = Ret (Z.of_nat (length lead))
            /\ cstr path = lead ++ body ++ trail).
  { rewrite Hstr0. destruct (is_unc_path (cstr path)).
    - exists []. by rewrite Hc.
    - destruct (skip_leading_by_spec is_dir_sep Hsnul (cstr path)
                  (length path) [] rest) as (lead & Hm & Hs).
      { rewrite Hp at 2. rewrite length_app. lia. }
      cbn [app length Nat.add] in Hm. change (Z.of_nat 0) with 0 in Hm.
      rewrite <- Hp in Hm. exists lead. split; [done|]. by rewrite <- Hc. }
  destruct Hlead as (lead & Hskip & Hs).
  assert (Hpath : path = lead ++ body ++ trail ++ NUL :: rest).
  { rewrite Hp at 1. rewrite Hs. by rewrite <- !app_assoc. }
  assert (Hnul : NUL ∉ body).
  { intros H. apply (cstr_no_nul path). rewrite Hs.
    apply elem_of_app. right. apply elem_of_app. by left. }
  rewrite Hpath in Hskip, Hsize |- *.
  rewrite (missing_leaf_mingw_spec os err lead body trail rest); try done.
  destruct (get_last_slash body) as [k|]; [|done].
  destruct (k =? root_len body)%nat; [done|].
  unfold xmalloc_realpath. by destruct (fs_realpath os (take k body)).
Qed.

End MissingLeafMingw.

(** ** The further statements at work *)

Lemma follow_symlinks_result_not_link_witness :
  0 <= @MAXSYMLINKS posix_build
  /\ @xmalloc_follow_symlinks posix_build 21 example_os (lit "/tmp/a") E_OK
     = Some (Some (lit "/tmp/b"), EINVAL)
  /\ fs_readlink example_os (lit "/tmp/b") = inl EINVAL.
Proof.
  split; [vm_compute; discriminate|]. split; [reflexivity|].
  refine (proj1 (@follow_symlinks_result_not_link posix_build example_os
            (lit "/tmp/a") E_OK 21 (lit "/tmp/b") EINVAL _ eq_refl)).
  vm_compute; discriminate.
Defined.

Lemma follow_symlinks_idempotent_witness :
  0 <= @MAXSYMLINKS posix_build
  /\ @xmalloc_follow_symlinks posix_build 21 example_os (lit "/tmp/link") E_OK
     = Some (Some (lit "/tmp/sub/file"), ENOENT)
  /\ @xmalloc_follow_symlinks posix_build 1 example_os (lit "/tmp/sub/file")
       EIO
     = Some (Some (lit "/tmp/sub/file"), ENOENT).
Proof.
  split; [vm_compute; discriminate|]. split; [reflexivity|].
  refine (@follow_symlinks_idempotent posix_build example_os
            (lit "/tmp/link") E_OK 21 (lit "/tmp/sub/file") ENOENT _ eq_refl
            1%nat EIO _).
  - vm_compute; discriminate.
  - lia.
Defined.

Lemma follow_symlinks_reads_only_chain_witness :
  0 <= @MAXSYMLINKS posix_build
  /\ @xmalloc_follow_symlinks posix_build 21
       {| fs_readlink := fs_readlink example_os;
          fs_realpath := fun _ => inl EIO;
          fs_getcwd := inl EACCES;
          heap_garbage := "#"%char;
          fs_realpath_errno := fun _ _ => EIO |}
       (lit "/tmp/a") E_OK
     = @xmalloc_follow_symlinks posix_build 21 example_os (lit "/tmp/a") E_OK.
Proof.
  split; [vm_compute; discriminate|].
  refine (@follow_symlinks_reads_only_chain posix_build example_os _
            (lit "/tmp/a") E_OK 21 _ _).
  - vm_compute; discriminate.
  - intros n q _ _. reflexivity.
Defined.

Lemma follow_symlinks_capacity_witness :
  @follow_state posix_build example_os 1 (lit "/tmp/link")
    (Z.of_nat (length (lit "/tmp/link")) + 1)
  = Some (lit "/tmp/sub/file", 18)
  /\ Z.of_nat (length (lit "/tmp/sub/file")) + 1 <= 18.
Proof.
  split; [reflexivity|].
  exact (proj1 (@follow_symlinks_capacity posix_build example_os
                  (lit "/tmp/link") 1 (lit "/tmp/sub/file") 18 eq_refl)).
Defined.

Lemma realpath_coreutils_null_errno_witness :
  (forall p, fs_readlink example_os p <> inl E_OK)
  /\ (forall p, fs_realpath example_os p <> inl E_OK)
  /\ @xmalloc_realpath_coreutils posix_build 1 example_os
       (xstrdup (lit "/nodir/missing")) E_OK
     = Ret (None, xstrdup (lit "/nodir/missing"), ENOENT)
  /\ ENOENT <> E_OK.
Proof.
  assert (H1 : forall p, fs_readlink example_os p <> inl E_OK).
  { intros p. unfold example_os, os_of. cbn [fs_readlink].
    destruct (assoc p _); [done|]. by destruct (assoc p _). }
  assert (H2 : forall p, fs_realpath example_os p <> inl E_OK).
  { intros p. unfold example_os, os_of. cbn [fs_realpath].
    by destruct (assoc p _). }
  split; [exact H1|]. split; [exact H2|]. split; [reflexivity|].
  exact (@realpath_coreutils_null_errno posix_build example_os H1 H2 1
           (xstrdup (lit "/nodir/missing")) E_OK
           (xstrdup (lit "/nodir/missing")) ENOENT eq_refl).
Defined.

Lemma realpath_coreutils_slashes_ignored_witness :
  collapse_leading (cstr (xstrdup (lit "/a/b/missing")))
  = lit "/a/b/missing" ++ replicate 0 SLASH
  /\ collapse_leading (cstr (xstrdup (lit "//a/b/missing//")))
     = lit "/a/b/missing" ++ replicate 2 SLASH
  /\ exists r e1 e2,
       @xmalloc_realpath_coreutils posix_build 1 example_os
         (xstrdup (lit "/a/b/missing")) E_OK
       = Ret (r, xstrdup (lit "/a/b/missing"), e1)
       /\ @xmalloc_realpath_coreutils posix_build 1 example_os
            (xstrdup (lit "//a/b/missing//")) E_OK
          = Ret (r, xstrdup (lit "//a/b/missing//"), e2)
       /\ (ENOENT = ENOENT -> e1 = e2).
Proof.
  split; [reflexivity|]. split; [reflexivity|].
  refine (@realpath_coreutils_slashes_ignored posix_build 0 example_os
            (xstrdup (lit "/a/b/missing")) (xstrdup (lit "//a/b/missing//"))
            E_OK ENOENT ENOENT (lit "/a/b/missing") 0 2
            eq_refl _ _ _ _ eq_refl eq_refl _ _).
  - split; compute_done.
  - split; vm_compute; discriminate.
  - split; reflexivity.
  - split; reflexivity.
  - discriminate.
  - right. vm_compute. discriminate.
Defined.

Lemma realpath_coreutils_no_separator_witness :
  @ENABLE_PLATFORM_MINGW32 posix_build = false
  /\ fs_realpath example_os (cstr (xstrdup (lit "nofile/"))) = inl ENOENT
  /\ fs_readlink example_os (cstr (xstrdup (lit "nofile/"))) = inl ENOENT
  /\ cstr (xstrdup (lit "nofile/")) = lit "nofile" ++ replicate 1 SLASH
  /\ @xmalloc_realpath_coreutils posix_build 1 example_os
       (xstrdup (lit "nofile/")) E_OK
     = Ret (None, xstrdup (lit "nofile/"), ENOENT).
Proof.
  split; [reflexivity|]. split; [reflexivity|]. split; [reflexivity|].
  split; [reflexivity|].
  refine (@realpath_coreutils_no_separator posix_build 0 example_os
            (xstrdup (lit "nofile/")) E_OK ENOENT (lit "nofile") 1
            eq_refl _ _ eq_refl eq_refl eq_refl _ _).
  - compute_done.
  - vm_compute; discriminate.
  - discriminate.
  - compute_done.
Defined.

Lemma realpath_coreutils_self_named_link_witness :
  fs_realpath os_self_named (lit "/w/d/l") = inl ENOENT
  /\ fs_readlink os_self_named (lit "/w/d/l") = inr (lit "d/l")
  /\ fs_getcwd os_self_named = inr (lit "/w")
  /\ fs_realpath os_self_named (lit "/w/d") = inr (lit "/w/d")
  /\ @xmalloc_realpath_coreutils posix_build 1000 os_self_named
       (xstrdup (lit "/w/d/l")) E_OK
     = OutOfFuel.
Proof.
  split; [reflexivity|]. split; [reflexivity|]. split; [reflexivity|].
  split; [reflexivity|].
  exact (@realpath_coreutils_self_named_link posix_build os_self_named
           (lit "/w/d/l") (lit "d/l") eq_refl eq_refl eq_refl 1000%nat
           (xstrdup (lit "/w/d/l")) E_OK eq_refl).
Defined.

Lemma realpath_coreutils_mingw_leaf_witness :
  @ENABLE_PLATFORM_MINGW32 mingw_build = true
  /\ @is_dir_sep mingw_build NUL = false
  /\ fs_realpath os_windows (cstr (xstrdup (lit "C:\dir\missing/")))
     = inl ENOENT
  /\ fs_readlink os_windows (cstr (xstrdup (lit "C:\dir\missing/")))
     = inl ENOENT
  /\ fs_realpath os_windows (lit "C:\dir") = inr (lit "C:/dir")
  /\ fs_realpath_errno os_windows (lit "C:\dir") ENOENT = EINVAL
  /\ @xmalloc_realpath_coreutils mingw_build 1 os_windows
       (xstrdup (lit "C:\dir\missing/")) E_OK
     = Ret (Some (lit "C:/dir\missing"), xstrdup (lit "C:\dir\missing/"),
            EINVAL).
Proof.
  split; [reflexivity|]. split; [reflexivity|]. split; [reflexivity|].
  split; [reflexivity|]. split; [reflexivity|]. split; [reflexivity|].
  refine (@realpath_coreutils_mingw_leaf mingw_build 0 os_windows
            (xstrdup (lit "C:\dir\missing/")) E_OK ENOENT
            (lit "C:\dir\missing") [SLASH]
            eq_refl eq_refl _ _ _ eq_refl eq_refl eq_refl _ _ _).
  - intros k Hk. destruct (rfind_Some _ _ _ Hk) as (c & Hc & _).
    by apply lookup_lt_Some in Hc.
  - compute_done.
  - vm_compute; discriminate.
  - repeat constructor.
  - discriminate.
  - right. exists (lit "C:\dir\missin"), "g"%char. split; reflexivity.
Defined.
